(** * Adversarial training loop (src/adversarial_training.py)

    A shallow embedding of [AdversarialTraining]: its constructor, the
    per-batch split / attack / recombine / backward step of [train], the
    capped adversarial pass of [test], and [step].

    Python floats are IEEE-754 binary64 numbers; they are embedded as
    [spec_float] with the operations of [SpecFloat] at precision 53 and
    maximal exponent 1024, so every rounding of the source is kept; the
    rational number a float stands for is its [value].
    Tensors are lists of rows along their leading dimension.  The model,
    the optimizer, the attack, the loss functions and the base class
    [NormalTraining] live outside this file of the repository and are taken
    as collaborators. *)

From Stdlib Require Import String.
From Stdlib Require Import ZArith List Bool Lia.
From Stdlib Require Import QArith Qround Qpower Lqa.
From Stdlib Require Import Floats.SpecFloat.
Import ListNotations.
Open Scope string_scope.
Open Scope list_scope.
Open Scope Z_scope.

(** ** Exceptions *)

Inductive exn : Type :=
| AssertionError
| ZeroDivisionError
| OverflowError
| ValueError
| TypeError
| RuntimeError
| BaseError.

Inductive result (A : Type) : Type :=
| Ok (a : A)
| Raise (e : exn).

Arguments Ok {A} a.
Arguments Raise {A} e.

Definition bind {A B : Type} (c : result A) (k : A -> result B) : result B :=
  match c with
  | Ok a => k a
  | Raise e => Raise e
  end.

Notation "x <- c ;; k" := (bind c (fun x => k))
  (at level 61, c at next level, right associativity).

(** [assert cond] *)
Definition assert (cond : bool) : result unit :=
  if cond then Ok tt else Raise AssertionError.

(** ** Python floats *)

Module PyFloat.

Definition float : Type := spec_float.

Definition fadd : float -> float -> float := SFadd 53 1024.
Definition fsub : float -> float -> float := SFsub 53 1024.
Definition fmul : float -> float -> float := SFmul 53 1024.
Definition fltb : float -> float -> bool := SFltb.
Definition fleb : float -> float -> bool := SFleb.

Definition zero : float := S754_zero false.
Definition one : float := S754_finite false 4503599627370496 (-52).

(** A float that a Python program can hold: canonical mantissa and
    exponent in range. *)
Definition valid (x : float) : bool := valid_binary 53 1024 x.

(** [float(n)] for a Python int: correctly rounded, [OverflowError] when
    the int is too large for a double. *)
Definition float_of_int (n : Z) : result float :=
  match binary_normalize 53 1024 n 0 false with
  | S754_zero s => Ok (S754_zero s)
  | S754_finite s m e => Ok (S754_finite s m e)
  | S754_infinity _ => Raise OverflowError
  | S754_nan => Raise OverflowError
  end.

(** [int(x)]: truncation toward zero; [OverflowError] on an infinity,
    [ValueError] on a NaN. *)
Definition int_of_float (x : float) : result Z :=
  match x with
  | S754_zero _ => Ok 0
  | S754_finite s m e =>
      Ok (cond_Zopp s (if 0 <=? e then Zpos m * 2 ^ e else Zpos m / 2 ^ (- e)))
  | S754_infinity _ => Raise OverflowError
  | S754_nan => Raise ValueError
  end.

(** The mathematical floor of the value of a float, where it has one. *)
Definition floor (x : float) : option Z :=
  match x with
  | S754_zero _ => Some 0
  | S754_finite s m e =>
      Some (if 0 <=? e then cond_Zopp s (Zpos m * 2 ^ e)
            else cond_Zopp s (Zpos m) / 2 ^ (- e))
  | _ => None
  end.

(** The rational number a finite float stands for: its signed mantissa
    times two to the power of its exponent. *)
Definition value (x : float) : Q :=
  match x with
  | S754_finite s m e => (inject_Z (cond_Zopp s (Zpos m)) * 2 ^ e)%Q
  | _ => 0%Q
  end.

Definition is_zero (x : float) : bool :=
  match x with
  | S754_zero _ => true
  | _ => false
  end.

(** [x / y] on floats: [ZeroDivisionError] when the divisor is zero. *)
Definition truediv (x y : float) : result float :=
  if is_zero y then Raise ZeroDivisionError else Ok (SFdiv 53 1024 x y).

End PyFloat.

Import PyFloat.

(** ** Tensors: slicing, broadcasting, int64 arithmetic *)

(** A slice bound of Python: negative bounds count from the end, and every
    bound is clipped to the length. *)
Definition slice_bound (len k : Z) : Z :=
  if k <? 0 then Z.max 0 (len + k) else Z.min k len.

(** [l[start:stop]], an omitted bound being [None]. *)
Definition slice {A : Type} (start stop : option Z) (l : list A) : list A :=
  let len := Z.of_nat (length l) in
  let a := match start with Some k => slice_bound len k | None => 0 end in
  let b := match stop with Some k => slice_bound len k | None => len end in
  firstn (Z.to_nat (b - a)) (skipn (Z.to_nat a) l).

(** [l[:k]] and [l[k:]] *)
Definition prefix {A : Type} (k : Z) (l : list A) : list A := slice None (Some k) l.
Definition suffix {A : Type} (k : Z) (l : list A) : list A := slice (Some k) None l.

(** An elementwise binary operation with broadcasting along the leading
    dimension: equal sizes, or one of the two of size one. *)
Definition broadcast2 {A B C : Type} (f : A -> B -> C)
    (xs : list A) (ys : list B) : result (list C) :=
  if (length xs =? length ys)%nat then Ok (map (fun p => f (fst p) (snd p)) (combine xs ys))
  else match xs, ys with
       | _, [y] => Ok (map (fun x => f x y) xs)
       | [x], _ => Ok (map (fun y => f x y) ys)
       | _, _ => Raise RuntimeError
       end.

(** int64: two's complement wrap-around. *)
Definition wrap64 (z : Z) : Z := (z + 2 ^ 63) mod 2 ^ 64 - 2 ^ 63.
Definition sub64 (a b : Z) : Z := wrap64 (a - b).
Definition abs64 (a : Z) : Z := wrap64 (Z.abs a).

(** [torch.clamp(x, max=c)] *)
Definition clamp_max (c x : Z) : Z := Z.min x c.

(** The attack-success indicator of one example:
    [clamp(abs(target - predicted), max=1)]. *)
Definition success_indicator (target predicted : Z) : Z :=
  clamp_max 1 (abs64 (sub64 target predicted)).

(** ** The metrics writer *)

Section Writer.
Context {example scalar : Type}.

Inductive write : Type :=
| add_text (tag : string) (text : string)
| add_scalar (tag : string) (value : scalar) (global_step : Z)
| add_images (tag : string) (images : list example) (global_step : Z).

Definition tag_of (w : write) : string :=
  match w with
  | add_text t _ => t
  | add_scalar t _ _ => t
  | add_images t _ _ => t
  end.

Definition is_text (w : write) : bool :=
  match w with add_text _ _ => true | _ => false end.
Definition is_scalar (w : write) : bool :=
  match w with add_scalar _ _ _ => true | _ => false end.
Definition is_images (w : write) : bool :=
  match w with add_images _ _ _ => true | _ => false end.

Definition step_of (w : write) : option Z :=
  match w with
  | add_text _ _ => None
  | add_scalar _ _ s => Some s
  | add_images _ _ s => Some s
  end.
End Writer.

Arguments write : clear implicits.

(** ** Running accumulators *)

(** Modelled from the spec: [common.numpy.concatenate] is not in this
    file; the spec describes the accumulators as growable sequences that
    start empty ([None]) and are concatenated across batches. *)
Definition concatenate {A : Type} (acc : option (list A)) (xs : list A) : option (list A) :=
  match acc with
  | None => Some xs
  | Some l => Some (l ++ xs)
  end.

(** ** Collaborators *)

Class Collaborators : Type := {
  example : Type;          (* a row of an input tensor *)
  logits_row : Type;       (* a row of the model's output *)
  scalar : Type;           (* zero-dimensional tensors and numpy scalars *)
  network : Type;          (* the model with its optimizer *)

  add_example : example -> example -> example;

  (* torch.nn.Module / torch.optim.Optimizer *)
  model_eval : network -> network;
  model_train : network -> network;
  zero_grad : network -> network;
  forward : network -> list example -> list logits_row;
  backward_step : network -> list example -> list Z -> scalar -> network;

  (* attacks.Attack, with the objective bound to the targets *)
  attack_run : network -> list example -> list Z -> list example * list scalar;
  attack_norm : list example -> list scalar;
  attack_name : string;
  objective_name : string;

  (* common.torch *)
  classification_loss : list logits_row -> list Z -> scalar;
  classification_loss_none : list logits_row -> list Z -> list scalar;
  classification_error : list logits_row -> list Z -> scalar;
  classification_error_none : list logits_row -> list Z -> list scalar;

  (* torch.max(torch.nn.functional.softmax(row), dim=1): value and index *)
  softmax_max : logits_row -> scalar * Z;

  (* a Python float times a tensor, and the sum of two tensors *)
  scale : float -> scalar -> scalar;
  scalar_add : scalar -> scalar -> scalar;
  zeros1 : scalar;

  (* numpy.mean *)
  numpy_mean : option (list scalar) -> scalar;
  numpy_mean_int : option (list Z) -> scalar;

  str_float : float -> string;

  (* NormalTraining.__init__ and NormalTraining.test: what they do to the
     network, what they write, or the exception they raise *)
  NormalTraining_init : network -> result (network * list (write example scalar));
  NormalTraining_test : Z -> network -> result (network * list (write example scalar))
}.

Section AdversarialTraining.
Context {C : Collaborators}.

Definition batch : Type := (list example * list Z)%type.
Definition writes : Type := list (write example scalar).

(** The object after construction. *)
Record trainer : Type := {
  fraction : float;          (* self.fraction: the fraction of clean samples *)
  max_batches : Z;           (* self.max_batches *)
  trainset : list batch;
  testset : list batch;
  net : network;             (* self.model, self.optimizer *)
  writer : writes            (* what self.writer has received, oldest first *)
}.

Record arguments : Type := {
  arg_net : network;
  arg_trainset : list batch;
  arg_testset : list batch;
  arg_fraction : float;
  arg_objective_is_Objective : bool;   (* isinstance(objective, Objective) *)
  arg_attack_has_norm : bool;          (* getattr(attack, 'norm', None) is not None *)
  arg_writer : writes
}.

(** [AdversarialTraining.__init__] *)
Definition init (a : arguments) : result trainer :=
  _ <- assert (fltb zero (arg_fraction a)) ;;
  _ <- assert (fleb (arg_fraction a) one) ;;
  _ <- assert (arg_objective_is_Objective a) ;;
  _ <- assert (arg_attack_has_norm a) ;;
  base <- NormalTraining_init (arg_net a) ;;
  Ok {| fraction := fsub one (arg_fraction a);
        max_batches := 10;
        trainset := arg_trainset a;
        testset := arg_testset a;
        net := fst base;
        writer := arg_writer a ++ snd base ++
                  [ add_text "config/attack" attack_name;
                    add_text "config/objective" objective_name;
                    add_text "config/fraction" (str_float (arg_fraction a)) ] |}.

(** The split index of a batch of [n] examples:
    [int(fraction * inputs.size(0))]. *)
Definition split_index (fraction : float) (n : Z) : result Z :=
  x <- float_of_int n ;;
  int_of_float (fmul fraction x).

(** [split / float(inputs.size(0))] *)
Definition realized_fraction (split n : Z) : result float :=
  s <- float_of_int split ;;
  x <- float_of_int n ;;
  truediv s x.

(** The inputs fed to the model: clean rows followed by perturbed rows
    when the perturbed part is smaller than the batch, the perturbed
    part alone otherwise. *)
Definition recombine (inputs clean_inputs adversarial_inputs : list example) : list example :=
  if (length adversarial_inputs <? length inputs)%nat
  then clean_inputs ++ adversarial_inputs
  else adversarial_inputs.

(** The values one training iteration computes before it touches the
    accumulators. *)
Record forward_pass : Type := {
  fp_split : Z;
  fp_fraction : float;                   (* fraction, recomputed from split *)
  fp_clean_targets : list Z;
  fp_adversarial_targets : list Z;
  fp_adversarial_inputs : list example;  (* after the perturbation *)
  fp_inputs : list example;              (* after recombination *)
  fp_net : network;                      (* in training mode, gradients zeroed *)
  fp_clean_logits : list logits_row;
  fp_adversarial_logits : list logits_row;
  fp_adversarial_loss : scalar;
  fp_mixed : bool;                       (* the test of lines 125, 162 and 187 *)
  fp_loss : scalar                       (* the loss that is back-propagated *)
}.

Definition forward_batch (fraction : float) (nw : network)
    (inputs : list example) (targets : list Z) : result forward_pass :=
  let n := Z.of_nat (length inputs) in
  split <- split_index fraction n ;;
  fraction' <- realized_fraction split n ;;
  let clean_inputs := prefix split inputs in
  let adversarial_inputs := suffix split inputs in
  let clean_targets := prefix split targets in
  let adversarial_targets := suffix split targets in
  let nw := model_eval nw in
  let '(adversarial_perturbations, _) := attack_run nw adversarial_inputs adversarial_targets in
  adversarial_inputs <- broadcast2 add_example adversarial_inputs adversarial_perturbations ;;
  let inputs' := recombine inputs clean_inputs adversarial_inputs in
  let nw := zero_grad (model_train nw) in
  let logits := forward nw inputs' in
  let clean_logits := prefix split logits in
  let adversarial_logits := suffix split logits in
  let adversarial_loss := classification_loss adversarial_logits adversarial_targets in
  let mixed := (length adversarial_inputs <? length inputs')%nat in
  let loss :=
    if mixed
    then scalar_add (scale (fsub one fraction') (classification_loss clean_logits clean_targets))
                    (scale fraction' adversarial_loss)
    else adversarial_loss in
  Ok {| fp_split := split;
        fp_fraction := fraction';
        fp_clean_targets := clean_targets;
        fp_adversarial_targets := adversarial_targets;
        fp_adversarial_inputs := adversarial_inputs;
        fp_inputs := inputs';
        fp_net := nw;
        fp_clean_logits := clean_logits;
        fp_adversarial_logits := adversarial_logits;
        fp_adversarial_loss := adversarial_loss;
        fp_mixed := mixed;
        fp_loss := loss |}.

(** The attack-success indicators of a batch. *)
Definition successes_of (targets : list Z) (logits : list logits_row) : result (list Z) :=
  broadcast2 success_indicator targets (map (fun row => snd (softmax_max row)) logits).

Definition confidences_of (logits : list logits_row) : list scalar :=
  map (fun row => fst (softmax_max row)) logits.

Record train_accumulators : Type := {
  cl_losses : option (list scalar);
  cl_errors : option (list scalar);
  cl_confidences : option (list scalar);
  tr_successes : option (list Z);
  tr_losses : option (list scalar);
  tr_errors : option (list scalar);
  tr_confidences : option (list scalar)
}.

Definition train_accumulators_init : train_accumulators :=
  {| cl_losses := None; cl_errors := None; cl_confidences := None;
     tr_successes := None; tr_losses := None; tr_errors := None;
     tr_confidences := None |}.

Definition accumulate_train (acc : train_accumulators) (fp : forward_pass)
    : result train_accumulators :=
  succ <- successes_of (fp_adversarial_targets fp) (fp_adversarial_logits fp) ;;
  Ok {| cl_losses := concatenate (cl_losses acc)
          (classification_loss_none (fp_clean_logits fp) (fp_clean_targets fp));
        cl_errors := concatenate (cl_errors acc)
          (classification_error_none (fp_clean_logits fp) (fp_clean_targets fp));
        cl_confidences := concatenate (cl_confidences acc)
          (confidences_of (fp_clean_logits fp));
        tr_successes := concatenate (tr_successes acc) succ;
        tr_losses := concatenate (tr_losses acc)
          (classification_loss_none (fp_adversarial_logits fp) (fp_adversarial_targets fp));
        tr_errors := concatenate (tr_errors acc)
          (classification_error_none (fp_adversarial_logits fp) (fp_adversarial_targets fp));
        tr_confidences := concatenate (tr_confidences acc)
          (confidences_of (fp_adversarial_logits fp)) |}.

(** What the last iteration of an epoch sends to the writer. *)
Definition clean_scalars (acc : train_accumulators) (global_step : Z) : writes :=
  [ add_scalar "train/loss" (numpy_mean (cl_losses acc)) global_step;
    add_scalar "train/error" (numpy_mean (cl_errors acc)) global_step;
    add_scalar "train/confidence" (numpy_mean (cl_confidences acc)) global_step ].

Definition adversarial_scalars (acc : train_accumulators) (global_step : Z) : writes :=
  [ add_scalar "train/adversarial_success" (numpy_mean_int (tr_successes acc)) global_step;
    add_scalar "train/adversarial_loss" (numpy_mean (tr_losses acc)) global_step;
    add_scalar "train/adversarial_error" (numpy_mean (tr_errors acc)) global_step;
    add_scalar "train/adversarial_confidence" (numpy_mean (tr_confidences acc)) global_step ].

Definition train_images (fp : forward_pass) (global_step : Z) : writes :=
  (if fp_mixed fp
   then [ add_images "train/images"
            (slice None (Some (Z.min 8 (fp_split fp))) (fp_inputs fp)) global_step ]
   else []) ++
  [ add_images "train/adversarial_images"
      (slice (Some (fp_split fp)) (Some (fp_split fp + 8)) (fp_inputs fp)) global_step ].

Definition epoch_writes (acc : train_accumulators) (fp : forward_pass) (epoch : Z) : writes :=
  let global_step := epoch in
  (if fp_mixed fp then clean_scalars acc global_step else []) ++
  adversarial_scalars acc global_step ++
  train_images fp global_step.

Record train_state : Type := {
  ts_net : network;
  ts_acc : train_accumulators;
  ts_writer : writes
}.

(** The body of the loop of [train], for batch number [b] of [batches]. *)
Definition train_batch (fraction : float) (epoch batches b : Z)
    (st : train_state) (bt : batch) : result train_state :=
  let '(inputs, targets) := bt in
  fp <- forward_batch fraction (ts_net st) inputs targets ;;
  acc <- accumulate_train (ts_acc st) fp ;;
  let nw := backward_step (fp_net fp) (fp_inputs fp) targets (fp_loss fp) in
  Ok {| ts_net := nw;
        ts_acc := acc;
        ts_writer := ts_writer st ++
                     (if b =? batches - 1 then epoch_writes acc fp epoch else []) |}.

Fixpoint train_loop (fraction : float) (epoch batches b : Z)
    (st : train_state) (data : list batch) : result train_state :=
  match data with
  | [] => Ok st
  | bt :: rest =>
      st' <- train_batch fraction epoch batches b st bt ;;
      train_loop fraction epoch batches (b + 1) st' rest
  end.

(** [AdversarialTraining.train] *)
Definition train (epoch : Z) (t : trainer) : result trainer :=
  let batches := Z.of_nat (length (trainset t)) in
  st <- train_loop (fraction t) epoch batches 0
          {| ts_net := net t; ts_acc := train_accumulators_init; ts_writer := writer t |}
          (trainset t) ;;
  Ok {| fraction := fraction t; max_batches := max_batches t;
        trainset := trainset t; testset := testset t;
        net := ts_net st; writer := ts_writer st |}.

Record test_accumulators : Type := {
  te_losses : option (list scalar);
  te_errors : option (list scalar);
  te_confidences : option (list scalar);
  te_successes : option (list Z);
  te_norms : option (list scalar);
  te_objectives : option (list scalar)
}.

Definition test_accumulators_init : test_accumulators :=
  {| te_losses := None; te_errors := None; te_confidences := None;
     te_successes := None; te_norms := None; te_objectives := None |}.

(** The body of the loop of [test], after the test of the cap. *)
Definition test_batch (nw : network) (acc : test_accumulators) (bt : batch)
    : result test_accumulators :=
  let '(inputs, targets) := bt in
  let '(adversarial_perturbations, adversarial_objectives) := attack_run nw inputs targets in
  let objectives := concatenate (te_objectives acc) adversarial_objectives in
  inputs <- broadcast2 add_example inputs adversarial_perturbations ;;
  let logits := forward nw inputs in
  succ <- successes_of targets logits ;;
  Ok {| te_losses := concatenate (te_losses acc) (classification_loss_none logits targets);
        te_errors := concatenate (te_errors acc) (classification_error_none logits targets);
        te_confidences := concatenate (te_confidences acc) (confidences_of logits);
        te_successes := concatenate (te_successes acc) succ;
        te_norms := concatenate (te_norms acc) (attack_norm adversarial_perturbations);
        te_objectives := objectives |}.

(** The loop of [test]: the accumulators and the final value of [b]. *)
Fixpoint test_loop (max_batches : Z) (nw : network) (b : Z) (acc : test_accumulators)
    (data : list batch) : result (test_accumulators * Z) :=
  match data with
  | [] => Ok (acc, b)
  | bt :: rest =>
      if b >=? max_batches then Ok (acc, b)
      else
        acc' <- test_batch nw acc bt ;;
        test_loop max_batches nw (b + 1) acc' rest
  end.

Definition test_scalars (acc : test_accumulators) (epoch : Z) : writes :=
  let global_step := epoch + 1 in
  [ add_scalar "test/adversarial_loss" (numpy_mean (te_losses acc)) global_step;
    add_scalar "test/adversarial_error" (numpy_mean (te_errors acc)) global_step;
    add_scalar "test/adversarial_confidence" (numpy_mean (te_confidences acc)) global_step;
    add_scalar "test/adversarial_success" (numpy_mean_int (te_successes acc)) global_step;
    add_scalar "test/adversarial_norm" (numpy_mean (te_norms acc)) global_step;
    add_scalar "test/adversarial_objective" (numpy_mean (te_objectives acc)) global_step ].

(** What [test] sends to the writer after its loop.  An accumulator that
    no batch has filled is still [None], and [numpy.mean(None)] raises
    [TypeError]. *)
Definition test_writes (acc : test_accumulators) (epoch : Z) : result writes :=
  match te_losses acc, te_errors acc, te_confidences acc,
        te_successes acc, te_norms acc, te_objectives acc with
  | Some _, Some _, Some _, Some _, Some _, Some _ => Ok (test_scalars acc epoch)
  | _, _, _, _, _, _ => Raise TypeError
  end.

(** [AdversarialTraining.test] *)
Definition test (epoch : Z) (t : trainer) : result trainer :=
  base <- NormalTraining_test epoch (net t) ;;
  let nw := model_eval (fst base) in
  r <- test_loop (max_batches t) nw 0 test_accumulators_init (testset t) ;;
  ws <- test_writes (fst r) epoch ;;
  Ok {| fraction := fraction t; max_batches := max_batches t;
        trainset := trainset t; testset := testset t;
        net := nw;
        writer := writer t ++ snd base ++ ws |}.

(** [AdversarialTraining.step] *)
Definition step (epoch : Z) (t : trainer) : result trainer :=
  t' <- train epoch t ;;
  test epoch t'.

(** Successive epochs, as a driver calls [step]. *)
Fixpoint run (epochs : list Z) (t : trainer) : result trainer :=
  match epochs with
  | [] => Ok t
  | e :: rest => t' <- step e t ;; run rest t'
  end.

End AdversarialTraining.

(** ** The properties, as the specification words them *)

Section Specification.
Context {C : Collaborators}.

(** The split index as the specification gives it: the floor of
    [(1 - f) * N], taken over the rationals on the number that [f] stands
    for. *)
Definition exact_split (f : float) (n : Z) : Z :=
  Qfloor ((1 - value f) * inject_Z n)%Q.

(** The loss of a mixed batch as the specification gives it: the clean
    loss weighted by [1 - f_adv] and the adversarial loss weighted by
    [f_adv], where [f_adv = (N - split) / N]. *)
Definition specified_loss (split n : Z) (clean_loss adversarial_loss : scalar)
    : result scalar :=
  f_adv <- realized_fraction (n - split) n ;;
  Ok (scalar_add (scale (fsub one f_adv) clean_loss) (scale f_adv adversarial_loss)).

(** Evaluating every batch of a list, in order. *)
Fixpoint evaluate_all (nw : network) (acc : test_accumulators) (data : list batch)
    : result test_accumulators :=
  match data with
  | [] => Ok acc
  | bt :: rest => acc' <- test_batch nw acc bt ;; evaluate_all nw acc' rest
  end.

(** The three configuration notes of the constructor. *)
Definition config_texts (f : float) : writes :=
  [ add_text "config/attack" attack_name;
    add_text "config/objective" objective_name;
    add_text "config/fraction" (str_float f) ].

(** The contract of the constructor. *)
Definition contract (a : arguments) : Prop :=
  fltb zero (arg_fraction a) = true /\ fleb (arg_fraction a) one = true /\
  arg_objective_is_Objective a = true /\ arg_attack_has_norm a = true.

(** Tags of the clean-partition metrics. *)
Definition clean_tag (tag : string) : bool :=
  (tag =? "train/loss")%string || (tag =? "train/error")%string
  || (tag =? "train/confidence")%string.

(** The writes of one call of [train]: nothing for an empty training
    set, and otherwise the writes of the last batch. *)
Definition epoch_log (fr : float) (epoch : Z) (data : list batch) (ws : writes) : Prop :=
  match data with
  | [] => ws = []
  | _ => exists acc fp nw inputs targets,
           forward_batch fr nw inputs targets = Ok fp /\ ws = epoch_writes acc fp epoch
  end.

End Specification.

(** ** Particular fractions *)

(** 0.5, the default of the constructor, and 2^-53 *)
Definition half : float := S754_finite false 4503599627370496 (-53).
Definition min_fraction : float := S754_finite false 4503599627370496 (-105).

(** ** A small instance

    Rows and logits are integers, the model returns its input, the attack
    adds one to every row, and the loss counts the rows whose logit is not
    the target.  Loss tensors are doubles. *)

Module Toy.

Definition mismatch (logit target : Z) : Z := if logit =? target then 0 else 1.

Fixpoint mismatches (logits targets : list Z) : Z :=
  match logits, targets with
  | l :: ls, t :: ts => mismatch l t + mismatches ls ts
  | _, _ => 0
  end.

Definition to_float (n : Z) : float := binary_normalize 53 1024 n 0 false.

Definition per_example (logits targets : list Z) : list float :=
  map (fun p => to_float (mismatch (fst p) (snd p))) (combine logits targets).

Definition first_or_zero (acc : option (list float)) : float :=
  match acc with
  | Some (x :: _) => x
  | _ => zero
  end.

(** 0.25, 0.75 and 2^-60 as doubles *)
Definition quarter : float := S754_finite false 4503599627370496 (-54).
Definition three_quarters : float := S754_finite false 6755399441055744 (-53).
Definition tiny : float := S754_finite false 4503599627370496 (-112).

(** 0.1 and 0.3 as doubles: the quotients [1 / 10] and [3 / 10] *)
Definition tenth : float := Eval vm_compute in SFdiv 53 1024 (to_float 1) (to_float 10).
Definition three_tenths : float := Eval vm_compute in SFdiv 53 1024 (to_float 3) (to_float 10).

Definition repr (f : float) : string :=
  if SFeqb f quarter then "0.25"
  else if SFeqb f one then "1.0"
  else "8.673617379884035e-19".

#[export] Instance collaborators : Collaborators := {|
  example := Z;
  logits_row := Z;
  scalar := float;
  network := nat;
  add_example := Z.add;
  model_eval := fun nw => nw;
  model_train := fun nw => nw;
  zero_grad := fun nw => nw;
  forward := fun _ xs => xs;
  backward_step := fun nw _ _ _ => S nw;
  attack_run := fun _ xs _ => (map (fun _ => 1) xs, map (fun _ => zero) xs);
  attack_norm := map (fun _ => one);
  attack_name := "BatchGradientDescent";
  objective_name := "UntargetedF0Objective";
  classification_loss := fun logits targets => to_float (mismatches logits targets);
  classification_loss_none := per_example;
  classification_error := fun logits targets => to_float (mismatches logits targets);
  classification_error_none := per_example;
  softmax_max := fun row => (one, row);
  scale := fmul;
  scalar_add := fadd;
  zeros1 := zero;
  numpy_mean := first_or_zero;
  numpy_mean_int := fun acc => match acc with Some (x :: _) => to_float x | _ => zero end;
  str_float := repr;
  NormalTraining_init := fun nw => Ok (nw, []);
  NormalTraining_test := fun epoch nw => Ok (nw, [add_scalar "test/loss" zero (epoch + 1)])
|}.

Definition four_rows : batch := ([0; 0; 0; 0], [0; 0; 0; 0]).
Definition ten_rows : batch := (repeat 0 10, repeat 0 10).

Definition args (f : float) : arguments :=
  {| arg_net := 0%nat;
     arg_trainset := [four_rows; four_rows];
     arg_testset := [four_rows];
     arg_fraction := f;
     arg_objective_is_Objective := true;
     arg_attack_has_norm := true;
     arg_writer := [] |}.

(** What [init (args f)] builds when it accepts [f]. *)
Definition constructed (f : float) : trainer :=
  {| fraction := fsub one f;
     max_batches := 10;
     trainset := [four_rows; four_rows];
     testset := [four_rows];
     net := 0%nat;
     writer := config_texts f |}.

(** A trainer whose test set has no batch. *)
Definition untested : trainer :=
  {| fraction := three_quarters;
     max_batches := 10;
     trainset := [four_rows];
     testset := [];
     net := 0%nat;
     writer := [] |}.

(** The trainer after the given epochs. *)
Definition after (epochs : list Z) (t : trainer) : trainer :=
  match run epochs t with
  | Ok t' => t'
  | Raise _ => t
  end.

Definition after_one_epoch : trainer :=
  Eval vm_compute in after [0] (constructed quarter).

Definition after_two_epochs : trainer :=
  Eval vm_compute in after [0; 1] (constructed quarter).

(** The forward pass of [four_rows] at a clean fraction of 0.75. *)
Definition mixed_pass : forward_pass :=
  {| fp_split := 3;
     fp_fraction := three_quarters;
     fp_clean_targets := [0; 0; 0];
     fp_adversarial_targets := [0];
     fp_adversarial_inputs := [1];
     fp_inputs := [0; 0; 0; 1];
     fp_net := 0%nat;
     fp_clean_logits := [0; 0; 0];
     fp_adversarial_logits := [1];
     fp_adversarial_loss := one;
     fp_mixed := true;
     fp_loss := three_quarters |}.

(** The trainer after one call of [train], and the forward pass of
    [four_rows] at a clean fraction of 0.5. *)
Definition after_training : trainer :=
  Eval vm_compute in
    match train 0 (constructed quarter) with
    | Ok t => t
    | Raise _ => constructed quarter
    end.

(** [untested] after one call of [train]. *)
Definition untested_trained : trainer :=
  Eval vm_compute in
    match train 0 untested with
    | Ok t => t
    | Raise _ => untested
    end.

Definition half_pass : forward_pass :=
  Eval vm_compute in
    match forward_batch half 0%nat (fst four_rows) (snd four_rows) with
    | Ok fp => fp
    | Raise _ => mixed_pass
    end.

End Toy.

(** ** Notions used in the proofs *)

Definition b2z (b : bool) : Z := if b then 1 else 0.

(** After [k] one-bit shifts of [m0]: the quotient, the round bit and the
    sticky bit. *)
Definition shr_inv (m0 k : Z) (mrs : shr_record) : Prop :=
  exists low, 0 <= low < 2 ^ (k - 1) /\ 0 <= shr_m mrs /\
    m0 = shr_m mrs * 2 ^ k + b2z (shr_r mrs) * 2 ^ (k - 1) + low /\
    (shr_s mrs = false -> low = 0).

(** [r] is the float of value [mz * 2 ^ e1] and sign [s]. *)
Definition rounds_to (s : bool) (mz e1 : Z) (r : spec_float) : Prop :=
  (mz = 0 /\ r = S754_zero s) \/
  (exists p' e', r = S754_finite s p' e' /\ e1 <= e' <= e1 + 1 /\
                 Zpos p' * 2 ^ (e' - e1) = mz /\ Zpos p' < 2 ^ 53).

(** A non-negative float with a mantissa below 2^53 and an exponent of at
    most [emaxv]. *)
Definition nonneg_bounded (emaxv : Z) (r : spec_float) : Prop :=
  r = S754_zero false \/
  exists p e, r = S754_finite false p e /\ Zpos p < 2 ^ 53 /\ e <= emaxv.

(** A float that is zero or positive, and finite. *)
Definition nonneg_finite (r : float) : Prop :=
  r = S754_zero false \/ exists p e, r = S754_finite false p e.

(** * Rounding of binary64 operations

    What [binary_round_aux] returns on an exact product or difference, in
    terms of integer division: the facts about the split index rest on
    these. *)

Module Binary64.

Lemma fexp64 e : fexp 53 1024 e = Z.max (e - 53) (-1074).
Proof. reflexivity. Qed.

Lemma pow2_double k : 1 <= k -> 2 ^ k = 2 * 2 ^ (k - 1).
Proof. intros Hk. rewrite <- Z.pow_succ_r by lia. f_equal; lia. Qed.

Lemma digits2_pos_size p : digits2_pos p = Pos.size p.
Proof. induction p; simpl; congruence. Qed.

Lemma digits2_bounds p :
  2 ^ (Zpos (digits2_pos p) - 1) <= Zpos p < 2 ^ Zpos (digits2_pos p).
Proof.
  rewrite digits2_pos_size.
  pose proof (Pos.size_gt p) as Hgt.
  pose proof (Pos.size_le p) as Hle.
  split.
  - assert (H : 2 * 2 ^ (Zpos (Pos.size p) - 1) <= 2 * Zpos p); [|lia].
    rewrite <- pow2_double by lia.
    rewrite <- Pos2Z.inj_pow.
    change (2 * Zpos p) with (Zpos p~0). apply Pos2Z.pos_le_pos. exact Hle.
  - rewrite <- Pos2Z.inj_pow. apply Pos2Z.pos_lt_pos. exact Hgt.
Qed.

Lemma digits2_le p k : 0 <= k -> Zpos p < 2 ^ k -> Zpos (digits2_pos p) <= k.
Proof.
  intros Hk Hp. pose proof (digits2_bounds p) as Hd.
  destruct (Z.le_gt_cases (Zpos (digits2_pos p)) k) as [|Hgt]; [assumption|].
  exfalso.
  assert (2 ^ k <= 2 ^ (Zpos (digits2_pos p) - 1)) by (apply Z.pow_le_mono_r; lia).
  lia.
Qed.

Section Iter.
Context {A : Type} (f : A -> A).

Lemma iter_pos_comm p : forall x, iter_pos f p (f x) = f (iter_pos f p x).
Proof.
  induction p as [p IH | p IH |]; intros x; simpl.
  - now rewrite !IH.
  - now rewrite !IH.
  - reflexivity.
Qed.

Lemma iter_pos_succ p x : iter_pos f (Pos.succ p) x = f (iter_pos f p x).
Proof.
  revert x; induction p as [p IH | p IH |]; intros x; simpl.
  - rewrite !IH. now rewrite !iter_pos_comm.
  - now rewrite !iter_pos_comm.
  - reflexivity.
Qed.
End Iter.

Lemma shr_1_nonneg m r s :
  0 <= m ->
  shr_1 (Build_shr_record m r s) = Build_shr_record (m / 2) (Z.odd m) (r || s).
Proof.
  intros Hm. destruct m as [|p|p]; [reflexivity| |lia].
  destruct p as [p|p|]; cbn [shr_1 Z.odd]; f_equal.
  - rewrite Pos2Z.inj_xI. apply Z.div_unique with (r := 1); lia.
  - rewrite Pos2Z.inj_xO. apply Z.div_unique with (r := 0); lia.
Qed.

Lemma odd_decompose m : m = 2 * (m / 2) + b2z (Z.odd m).
Proof.
  rewrite (Z.div_mod m 2) at 1 by lia. rewrite Zmod_odd.
  destruct (Z.odd m); reflexivity.
Qed.

Lemma shr_inv_step m0 k mrs :
  1 <= k -> shr_inv m0 k mrs -> shr_inv m0 (k + 1) (shr_1 mrs).
Proof.
  intros Hk (low & Hlow & Hm & Heq & Hs).
  destruct mrs as [m r s]; cbn [shr_m shr_r shr_s] in *.
  rewrite shr_1_nonneg by assumption.
  exists (b2z r * 2 ^ (k - 1) + low); cbn [shr_m shr_r shr_s].
  replace (k + 1 - 1) with k by lia.
  pose proof (pow2_double k Hk) as Hp.
  assert (Hpp : 2 ^ (k + 1) = 2 * 2 ^ k) by (rewrite Z.pow_add_r by lia; lia).
  pose proof (odd_decompose m) as Hodd.
  repeat split.
  - destruct r; cbn [b2z]; lia.
  - destruct r; cbn [b2z]; lia.
  - apply Z.div_pos; lia.
  - rewrite Hpp. rewrite Heq. rewrite Hodd at 1. ring.
  - intros Hrs. apply orb_false_iff in Hrs as [-> ->]. cbn [b2z].
    rewrite Hs by reflexivity. lia.
Qed.

Lemma shr_inv_iter m0 p :
  0 <= m0 -> shr_inv m0 (Zpos p) (iter_pos shr_1 p (Build_shr_record m0 false false)).
Proof.
  intros Hm0. induction p as [|p IH] using Pos.peano_ind.
  - cbn [iter_pos]. rewrite shr_1_nonneg by assumption.
    exists 0. cbn [shr_m shr_r shr_s orb]. change (1 - 1) with 0.
    repeat split; try lia.
    + apply Z.div_pos; lia.
    + pose proof (odd_decompose m0). lia.
  - rewrite iter_pos_succ. rewrite Pos2Z.inj_succ. apply shr_inv_step; [lia | exact IH].
Qed.

Lemma shr_nonpos mrs e n : n <= 0 -> shr mrs e n = (mrs, e).
Proof. intros Hn. destruct n; try reflexivity; lia. Qed.

(** No bit is lost: the rounding returns its argument. *)
Lemma round_aux_exact s p e :
  fexp 53 1024 (Zpos (digits2_pos p) + e) <= e -> e <= 971 ->
  binary_round_aux 53 1024 s (Zpos p) e loc_Exact = S754_finite s p e.
Proof.
  intros Hfexp He. unfold binary_round_aux, shr_fexp.
  cbn [Zdigits2 shr_record_of_loc].
  rewrite shr_nonpos by lia.
  cbn [shr_m loc_of_shr_record round_nearest_even Zdigits2 shr_record_of_loc].
  rewrite shr_nonpos by lia. cbn [shr_m].
  change (1024 - 53) with 971.
  destruct (Z.leb_spec e 971); [reflexivity | lia].
Qed.

Lemma round_nearest_even_cases q r s low n :
  0 <= low < 2 ^ (n - 1) -> (s = false -> low = 0) -> 1 <= n ->
  let rem := b2z r * 2 ^ (n - 1) + low in
  let mz := round_nearest_even q (loc_of_shr_record (Build_shr_record q r s)) in
  q <= mz <= q + 1 /\ (mz = q + 1 -> 2 ^ n <= 2 * rem) /\ (mz = q -> 2 * rem <= 2 ^ n).
Proof.
  intros Hlow Hs Hn rem mz.
  pose proof (pow2_double n Hn) as Hp.
  subst rem mz. destruct r, s; cbn [loc_of_shr_record round_nearest_even b2z].
  - repeat split; lia.
  - rewrite Hs by reflexivity. destruct (Z.even q); repeat split; lia.
  - repeat split; lia.
  - rewrite Hs by reflexivity. repeat split; lia.
Qed.

(** Bits are lost: the result is the quotient or its successor, and it
    is the successor only from the midpoint upward. *)
Lemma round_aux_shift s p e :
  let e1 := fexp 53 1024 (Zpos (digits2_pos p) + e) in
  let n := e1 - e in
  e < e1 -> e1 < 971 ->
  exists mz,
    Zpos p / 2 ^ n <= mz <= Zpos p / 2 ^ n + 1 /\
    (mz = Zpos p / 2 ^ n + 1 -> 2 ^ n <= 2 * (Zpos p mod 2 ^ n)) /\
    (mz = Zpos p / 2 ^ n -> 2 * (Zpos p mod 2 ^ n) <= 2 ^ n) /\
    rounds_to s mz e1 (binary_round_aux 53 1024 s (Zpos p) e loc_Exact).
Proof.
  intros e1 n He1 Hmax.
  pose proof (digits2_bounds p) as Hd.
  assert (He1def : e1 = Z.max (Zpos (digits2_pos p) + e - 53) (-1074)) by reflexivity.
  assert (Hn : 0 < n) by (unfold n; lia).
  destruct n as [|k|k] eqn:Hnk; try lia.
  unfold binary_round_aux, shr_fexp.
  cbn [Zdigits2 shr_record_of_loc].
  fold e1. replace (e1 - e) with (Zpos k) by (unfold n in Hnk; lia).
  cbn [shr].
  destruct (shr_inv_iter (Zpos p) k ltac:(lia)) as (low & Hlow & Hq & Heq & Hs).
  destruct (iter_pos shr_1 k _) as [q r sb]; cbn [shr_m shr_r shr_s] in *.
  pose proof (pow2_double (Zpos k) ltac:(lia)) as Hp.
  assert (Hpos : 0 < 2 ^ (Zpos k - 1)) by (apply Z.pow_pos_nonneg; lia).
  assert (Hrem : 0 <= b2z r * 2 ^ (Zpos k - 1) + low < 2 ^ Zpos k).
  { destruct r; cbn [b2z]; lia. }
  assert (Hdiv : Zpos p / 2 ^ Zpos k = q).
  { symmetry. apply Z.div_unique with (r := b2z r * 2 ^ (Zpos k - 1) + low); [lia|].
    rewrite Heq. ring. }
  assert (Hmod : Zpos p mod 2 ^ Zpos k = b2z r * 2 ^ (Zpos k - 1) + low).
  { symmetry. apply Z.mod_unique with (q := q); [lia|]. rewrite Heq. ring. }
  rewrite Hdiv, Hmod.
  destruct (round_nearest_even_cases q r sb low (Zpos k) Hlow Hs ltac:(lia))
    as (Hmz & Hup & Hdown).
  set (mz := round_nearest_even q _) in *.
  exists mz. split; [exact Hmz|]. split; [exact Hup|]. split; [exact Hdown|].
  assert (Hq53 : q < 2 ^ 53).
  { rewrite <- Hdiv. apply Z.div_lt_upper_bound; [lia|].
    rewrite <- Z.pow_add_r by lia.
    apply Z.lt_le_trans with (1 := proj2 Hd).
    apply Z.pow_le_mono_r; lia. }
  replace (e + Zpos k) with e1 by (unfold n in Hnk; lia).
  destruct mz as [|pz|pz] eqn:Hmzeq; try lia.
  - left. split; [reflexivity|].
    cbn [Zdigits2]. rewrite shr_nonpos by (rewrite fexp64; lia).
    reflexivity.
  - right. cbn [Zdigits2].
    pose proof (digits2_bounds pz) as Hdz.
    destruct (Z.eq_dec (Zpos pz) (2 ^ 53)) as [Hcarry | Hnocarry].
    + (* the mantissa reached 2^53: one more shift *)
      assert (pz = 9007199254740992%positive)
        by (apply Pos2Z.inj; rewrite Hcarry; reflexivity).
      subst pz.
      exists 4503599627370496%positive, (e1 + 1).
      assert (Hf : fexp 53 1024 (Zpos (digits2_pos 9007199254740992) + e1) - e1 = 1).
      { rewrite fexp64. change (Zpos (digits2_pos 9007199254740992)) with 54. lia. }
      rewrite Hf. cbn [shr iter_pos shr_1 shr_record_of_loc shr_m].
      change (1024 - 53) with 971.
      destruct (Z.leb_spec (e1 + 1) 971); [|lia].
      split; [reflexivity|]. split; [lia|].
      replace (e1 + 1 - e1) with 1 by lia. split; reflexivity.
    + assert (Hpz : Zpos pz < 2 ^ 53) by lia.
      assert (Hdz53 : Zpos (digits2_pos pz) <= 53) by (apply digits2_le; lia).
      exists pz, e1.
      rewrite shr_nonpos by (rewrite fexp64; lia).
      cbn [shr_record_of_loc shr_m]. change (1024 - 53) with 971.
      destruct (Z.leb_spec e1 971); [|lia].
      split; [reflexivity|]. split; [lia|].
      rewrite Z.sub_diag. split; [lia | assumption].
Qed.

Lemma iter_xO_pow p d : Zpos (Pos.iter xO p d) = Zpos p * 2 ^ Zpos d.
Proof.
  induction d as [|d IH] using Pos.peano_ind.
  - cbn [Pos.iter]. lia.
  - rewrite Pos.iter_succ, Pos2Z.inj_xO, IH, Pos2Z.inj_succ, Z.pow_succ_r by lia. ring.
Qed.

Lemma iter_xO_digits p d :
  Zpos (digits2_pos (Pos.iter xO p d)) = Zpos (digits2_pos p) + Zpos d.
Proof.
  induction d as [|d IH] using Pos.peano_ind.
  - cbn [Pos.iter digits2_pos]. lia.
  - rewrite Pos.iter_succ. cbn [digits2_pos]. rewrite Pos2Z.inj_succ, IH. lia.
Qed.

(** [binary_round] at or above the canonical exponent: exact. *)
Lemma binary_round_exact s p e :
  let e1 := fexp 53 1024 (Zpos (digits2_pos p) + e) in
  e1 <= e -> e1 <= 971 ->
  exists p', binary_round 53 1024 s p e = S754_finite s p' e1 /\
             Zpos p' = Zpos p * 2 ^ (e - e1) /\ Zpos p' < 2 ^ 53.
Proof.
  intros e1 He Hmax. unfold binary_round. fold e1. unfold shl_align.
  pose proof (digits2_bounds p) as Hd.
  assert (He1 : e1 = Z.max (Zpos (digits2_pos p) + e - 53) (-1074)) by reflexivity.
  destruct (e1 - e) as [|d|d] eqn:Hde; try lia.
  - assert (e1 = e) by lia. exists p.
    rewrite round_aux_exact by (fold e1; lia).
    replace (e - e1) with 0 by lia.
    split; [congruence|]. split; [lia|].
    apply Z.lt_le_trans with (1 := proj2 Hd). apply Z.pow_le_mono_r; lia.
  - exists (Pos.iter xO p d).
    assert (Hd' : Zpos d = e - e1) by lia.
    rewrite round_aux_exact.
    + rewrite iter_xO_pow, Hd'. split; [reflexivity|]. split; [reflexivity|].
      apply Z.lt_le_trans with (2 ^ Zpos (digits2_pos p) * 2 ^ (e - e1)).
      * apply Z.mul_lt_mono_pos_r; [apply Z.pow_pos_nonneg; lia | lia].
      * rewrite <- Z.pow_add_r by lia. apply Z.pow_le_mono_r; lia.
    + rewrite iter_xO_digits, Hd'.
      replace (Zpos (digits2_pos p) + (e - e1) + e1) with (Zpos (digits2_pos p) + e) by lia.
      fold e1. lia.
    + lia.
Qed.

Lemma binary_round_above s p e :
  e < fexp 53 1024 (Zpos (digits2_pos p) + e) ->
  binary_round 53 1024 s p e = binary_round_aux 53 1024 s (Zpos p) e loc_Exact.
Proof.
  intros He. unfold binary_round, shl_align.
  destruct (fexp 53 1024 (Zpos (digits2_pos p) + e) - e) eqn:Hde; try lia; reflexivity.
Qed.

Lemma binary_round_bounded p e :
  let e1 := fexp 53 1024 (Zpos (digits2_pos p) + e) in
  e1 < 971 -> nonneg_bounded (e1 + 1) (binary_round 53 1024 false p e).
Proof.
  intros e1 Hmax.
  destruct (Z.le_gt_cases e1 e) as [Hle | Hgt].
  - destruct (binary_round_exact false p e Hle ltac:(fold e1; lia)) as (p' & -> & _ & Hp').
    right. exists p', e1. fold e1. split; [reflexivity|]. split; [assumption | lia].
  - rewrite binary_round_above by (fold e1; lia).
    destruct (round_aux_shift false p e ltac:(fold e1; lia) Hmax)
      as (mz & _ & _ & _ & [[_ ->] | (p' & e' & -> & He' & _ & Hp')]).
    + now left.
    + right. exists p', e'. fold e1 in He'.
      split; [reflexivity|]. split; [assumption | lia].
Qed.

End Binary64.

(** * The split index *)

Module Split.
Import Binary64.

Lemma float_of_int_zero : float_of_int 0 = Ok zero.
Proof. reflexivity. Qed.

(** Batch sizes below 2^53 convert without rounding. *)
Lemma float_of_int_exact n :
  0 < n < 2 ^ 53 ->
  exists m e, float_of_int n = Ok (S754_finite false m e) /\
              -52 <= e <= 0 /\ Zpos m = n * 2 ^ (- e) /\ Zpos m < 2 ^ 53.
Proof.
  intros Hn. destruct n as [|p|p]; try lia.
  unfold float_of_int, binary_normalize.
  pose proof (digits2_bounds p) as Hd.
  assert (Hd53 : Zpos (digits2_pos p) <= 53) by (apply digits2_le; lia).
  assert (He1 : fexp 53 1024 (Zpos (digits2_pos p) + 0) = Zpos (digits2_pos p) - 53).
  { rewrite fexp64. lia. }
  destruct (binary_round_exact false p 0) as (p' & Hr & Hval & Hp'); try (rewrite He1; lia).
  rewrite He1 in Hr, Hval.
  exists p', (Zpos (digits2_pos p) - 53). rewrite Hr.
  split; [reflexivity|]. split; [lia|]. split; [|assumption].
  rewrite Hval. f_equal.
Qed.

(** A valid float in (0, 1]. *)
Lemma unit_interval_inv f :
  valid f = true -> fltb zero f = true -> fleb f one = true ->
  exists m e, f = S754_finite false m e /\ Zpos m < 2 ^ 53 /\
              (e < -52 \/ (e = -52 /\ Zpos m <= 2 ^ 52)).
Proof.
  intros Hvalid Hpos Hle.
  destruct f as [s | s | | s m e]; try destruct s; try discriminate.
  exists m, e. split; [reflexivity|].
  unfold valid in Hvalid. cbn [valid_binary] in Hvalid.
  unfold bounded, canonical_mantissa in Hvalid.
  apply andb_true_iff in Hvalid as [Hcan _]. apply Z.eqb_eq in Hcan.
  rewrite fexp64 in Hcan.
  pose proof (digits2_bounds m) as Hd.
  split.
  - apply Z.lt_le_trans with (1 := proj2 Hd). apply Z.pow_le_mono_r; lia.
  - unfold fleb, SFleb, one in Hle. cbn [SFcompare] in Hle.
    destruct (Z.compare_spec e (-52)) as [Heq | Hlt | Hgt]; try discriminate.
    + right. split; [assumption|].
      rewrite Pos.compare_cont_spec in Hle. cbn [Pos.switch_Eq] in Hle.
      change (2 ^ 52) with (Zpos 4503599627370496).
      destruct (Pos.compare_spec m 4503599627370496) as [Hm | Hm | Hm];
        try discriminate.
      * rewrite Hm. apply Z.le_refl.
      * apply Z.lt_le_incl. apply Pos2Z.pos_lt_pos. exact Hm.
    + now left.
Qed.

(** The clean fraction stored by the constructor, [1 - f], is a
    non-negative float with an exponent of at most -52. *)
Lemma fsub_one_bounded f :
  valid f = true -> fltb zero f = true -> fleb f one = true ->
  nonneg_bounded (-52) (fsub one f).
Proof.
  intros Hvalid Hpos Hle.
  destruct (unit_interval_inv f Hvalid Hpos Hle) as (m & e & -> & Hm & He).
  unfold fsub, SFsub, one.
  assert (Hmin : Z.min (-52) e = e) by lia. rewrite Hmin.
  assert (Hself : fst (shl_align m e e) = m).
  { unfold shl_align. rewrite Z.sub_diag. reflexivity. }
  assert (Hone : Zpos (fst (shl_align 4503599627370496 (-52) e)) = 2 ^ (- e)).
  { unfold shl_align. destruct (e - -52) as [|d|d] eqn:Hd; try lia.
    - replace e with (-52) by lia. reflexivity.
    - cbn [fst]. rewrite iter_xO_pow. change (Zpos 4503599627370496) with (2 ^ 52).
      rewrite <- Z.pow_add_r by lia. f_equal. lia. }
  rewrite Hself, Hone. cbn [cond_Zopp].
  assert (Hpow : 2 ^ 53 <= 2 ^ (- e) \/ (e = -52 /\ 2 ^ (- e) = 2 ^ 52)).
  { destruct He as [He | [-> _]]; [left | right; split; reflexivity].
    apply Z.pow_le_mono_r; lia. }
  destruct (2 ^ (- e) - Zpos m) as [|d|d] eqn:Hdiff; try lia.
  - now left.
  - cbn [binary_normalize].
    pose proof (digits2_bounds d) as Hd.
    assert (Hdd : Zpos (digits2_pos d) <= - e) by (apply digits2_le; lia).
    assert (He1 : fexp 53 1024 (Zpos (digits2_pos d) + e) <= -53) by (rewrite fexp64; lia).
    destruct (binary_round_bounded d e ltac:(lia)) as [-> | (p' & e' & -> & Hp' & He')].
    + now left.
    + right. exists p', e'. split; [reflexivity|]. split; [assumption | lia].
Qed.

Lemma int_of_float_nonneg r :
  nonneg_finite r -> exists k, int_of_float r = Ok k /\ floor r = Some k /\ 0 <= k.
Proof.
  intros [-> | (p & e & ->)].
  - exists 0. split; [reflexivity|]. split; [reflexivity | ]. lia.
  - cbn [int_of_float floor cond_Zopp]. eexists. split; [reflexivity|].
    split; [reflexivity|].
    destruct (Z.leb_spec 0 e).
    + apply Z.mul_nonneg_nonneg; [lia | apply Z.pow_nonneg; lia].
    + apply Z.div_pos; [lia | apply Z.pow_pos_nonneg; lia].
Qed.

Lemma pos_mul_lt a b ka kb :
  0 <= ka -> 0 <= kb -> Zpos a < 2 ^ ka -> Zpos b < 2 ^ kb -> Zpos (a * b) < 2 ^ (ka + kb).
Proof.
  intros Hka Hkb Ha Hb. rewrite Pos2Z.inj_mul, Z.pow_add_r by lia.
  apply Z.mul_lt_mono_nonneg; lia.
Qed.

(** The product of a bounded clean fraction and an exact batch size. *)
Lemma fmul_nonneg_finite ma ea mN eN :
  Zpos ma < 2 ^ 53 -> ea <= -52 -> Zpos mN < 2 ^ 53 -> eN <= 0 ->
  nonneg_finite (fmul (S754_finite false ma ea) (S754_finite false mN eN)).
Proof.
  intros Hma Hea HmN HeN. unfold fmul, SFmul. cbn [xorb].
  pose proof (pos_mul_lt ma mN 53 53 ltac:(lia) ltac:(lia) Hma HmN) as HP.
  assert (Hd : Zpos (digits2_pos (ma * mN)) <= 106) by (apply digits2_le; [lia | exact HP]).
  set (e1 := fexp 53 1024 (Zpos (digits2_pos (ma * mN)) + (ea + eN))).
  assert (He1 : e1 <= 1) by (unfold e1; rewrite fexp64; lia).
  destruct (Z.le_gt_cases e1 (ea + eN)) as [Hle | Hgt].
  - rewrite round_aux_exact by (fold e1; lia). right. eauto.
  - destruct (round_aux_shift false (ma * mN) (ea + eN) ltac:(fold e1; lia) ltac:(fold e1; lia))
      as (mz & _ & _ & _ & [[_ ->] | (p' & e' & -> & _)]).
    + now left.
    + right. eauto.
Qed.

Lemma pow2_pos k : 0 <= k -> 0 < 2 ^ k.
Proof. intros. apply Z.pow_pos_nonneg; lia. Qed.

Lemma pow2_ge1 k : 0 <= k -> 1 <= 2 ^ k.
Proof. intros Hk. pose proof (pow2_pos k Hk). lia. Qed.

(** A clean fraction below one is at most 1 - 2^-53. *)
Lemma below_one_gap ma ea :
  Zpos ma < 2 ^ 53 -> (ea < -52 \/ (ea = -52 /\ Zpos ma < 2 ^ 52)) ->
  2 ^ 53 * Zpos ma <= (2 ^ 53 - 1) * 2 ^ (- ea).
Proof.
  intros Hma [Hea | [-> Hm]].
  - assert (2 ^ 53 <= 2 ^ (- ea)) by (apply Z.pow_le_mono_r; lia).
    nia.
  - change (2 ^ (- -52)) with (2 ^ 52). lia.
Qed.

(** Below one times [N] stays below [N] after rounding: the rounded
    product can reach [N] only from the midpoint under it, which a factor
    of at most 1 - 2^-53 does not reach. *)
Lemma fmul_below ma ea mN eN N :
  Zpos ma < 2 ^ 53 -> (ea < -52 \/ (ea = -52 /\ Zpos ma < 2 ^ 52)) ->
  -52 <= eN <= 0 -> Zpos mN = N * 2 ^ (- eN) -> Zpos mN < 2 ^ 53 -> 1 <= N ->
  exists k, int_of_float (fmul (S754_finite false ma ea) (S754_finite false mN eN)) = Ok k /\
            0 <= k < N.
Proof.
  intros Hma Hea HeN HmN HmN53 HN.
  pose proof (below_one_gap ma ea Hma Hea) as Hgap.
  assert (Hea52 : ea <= -52) by lia.
  set (A := 2 ^ (- ea)) in *. set (B := 2 ^ (- eN)) in *.
  assert (HA : 0 < A) by (apply pow2_pos; lia).
  assert (HB : 0 < B) by (apply pow2_pos; lia).
  assert (HAB : 2 ^ (- (ea + eN)) = A * B).
  { unfold A, B. rewrite <- Z.pow_add_r by lia. f_equal. lia. }
  set (P := Zpos (ma * mN)).
  assert (HP : P = Zpos ma * Zpos mN) by apply Pos2Z.inj_mul.
  assert (HPN : 2 ^ 53 * P <= (2 ^ 53 - 1) * (Zpos mN * A)).
  { rewrite HP. 
    replace (2 ^ 53 * (Zpos ma * Zpos mN)) with ((2 ^ 53 * Zpos ma) * Zpos mN) by ring.
    replace ((2 ^ 53 - 1) * (Zpos mN * A)) with (((2 ^ 53 - 1) * A) * Zpos mN) by ring.
    apply Z.mul_le_mono_nonneg_r; lia. }
  assert (HPlt : P < Zpos mN * A) by nia.
  assert (HN' : Zpos mN * A = N * (A * B)) by (rewrite HmN; ring).
  unfold fmul, SFmul. cbn [xorb].
  pose proof (digits2_bounds (ma * mN)) as Hd. fold P in Hd.
  set (d := Zpos (digits2_pos (ma * mN))) in *.
  assert (Hdle : d <= 53 - ea).
  { apply digits2_le; [lia|]. fold P.
    apply Z.lt_trans with (1 := HPlt).
    replace (53 - ea) with (53 + - ea) by lia. rewrite Z.pow_add_r by lia. fold A.
    apply Z.mul_lt_mono_pos_r; lia. }
  set (e1 := fexp 53 1024 (d + (ea + eN))).
  assert (He1def : e1 = Z.max (d + (ea + eN) - 53) (-1074)) by reflexivity.
  assert (He1N : e1 <= eN) by lia.
  destruct (Z.le_gt_cases e1 (ea + eN)) as [Hle | Hgt].
  - (* the product is exact *)
    rewrite round_aux_exact by (fold d e1; lia).
    cbn [int_of_float cond_Zopp]. fold P.
    destruct (Z.leb_spec 0 (ea + eN)) as [|_]; [lia|].
    rewrite HAB. eexists. split; [reflexivity|]. split.
    + apply Z.div_pos; [unfold P|]; lia.
    + apply Z.div_lt_upper_bound; [apply Z.mul_pos_pos; lia|]. rewrite Z.mul_comm, <- HN'. exact HPlt.
  - (* the product is rounded *)
    destruct (round_aux_shift false (ma * mN) (ea + eN) ltac:(fold d e1; lia) ltac:(fold d e1; lia))
      as (mz & Hmz & Hup & _ & Hres).
    fold P d e1 in Hmz, Hup. fold d e1 in Hres.
    set (n := e1 - (ea + eN)) in *.
    set (T := 2 ^ n) in *.
    assert (HT : 0 < T) by (apply pow2_pos; unfold n; lia).
    pose proof (Z.div_mod P T ltac:(lia)) as Hdm.
    pose proof (Z.mod_pos_bound P T HT) as Hrem.
    set (q := P / T) in *. set (rem := P mod T) in *.
    set (U := 2 ^ (eN - e1)).
    assert (HU : 0 < U) by (apply pow2_pos; lia).
    assert (HTU : T * U = A).
    { unfold T, U, A, n. rewrite <- Z.pow_add_r by lia. f_equal. lia. }
    set (V := 2 ^ (- e1)).
    assert (HV : 0 < V) by (apply pow2_pos; lia).
    assert (HBU : B * U = V).
    { unfold B, U, V. rewrite <- Z.pow_add_r by lia. f_equal. lia. }
    assert (Hn' : Zpos mN * U = N * V) by (rewrite HmN, <- HBU; ring).
    assert (HNT : Zpos mN * A = (N * V) * T) by (rewrite <- Hn', <- HTU; ring).
    assert (Hq : q < N * V).
    { apply (Z.mul_lt_mono_pos_l T); [exact HT|].
      replace (T * (N * V)) with (N * V * T) by ring. lia. }
    assert (Hmzlt : mz < N * V).
    { destruct (Z.eq_dec mz (N * V)) as [Heq | Hne]; [exfalso | lia].
      assert (Hmzq : mz = q + 1) by lia.
      specialize (Hup Hmzq).
      (* the midpoint is too far from N *)
      assert (HTq : T * q = Zpos mN * A - T) by (rewrite HNT, <- Heq, Hmzq; ring).
      assert (Hfar : Zpos mN * A <= 2 ^ 52 * T) by lia.
      destruct (Z.le_gt_cases (-1074) (d + (ea + eN) - 53)) as [Hnorm | Hsub].
      - assert (Hn : n = d - 53) by (unfold n; lia).
        assert (H52 : 2 ^ 52 * T = 2 ^ (d - 1)).
        { unfold T. rewrite Hn, <- Z.pow_add_r by lia. f_equal. lia. }
        lia.
      - remember (2 ^ 1074) as K eqn:HK.
        assert (HTA : A * B = T * K).
        { rewrite <- HAB, HK. unfold T. rewrite <- Z.pow_add_r by lia.
          f_equal. unfold n. lia. }
        assert (HK52 : 2 ^ 52 < K) by (rewrite HK; apply Z.pow_lt_mono_r; lia).
        rewrite HN', HTA in Hfar.
        assert (H0 : 0 <= T * K) by (apply Z.mul_nonneg_nonneg; lia).
        assert (H1 : 1 * (T * K) <= N * (T * K)) by (apply Z.mul_le_mono_nonneg_r; lia).
        assert (H2 : T * 2 ^ 52 < T * K) by (apply Z.mul_lt_mono_pos_l; lia).
        lia. }
    destruct Hres as [[Hz ->] | (p' & e' & -> & He' & Hval & Hp')].
    + exists 0. split; [reflexivity | lia].
    + cbn [int_of_float cond_Zopp]. eexists. split; [reflexivity|].
      assert (Hcases : e' = e1 \/ e' = e1 + 1) by lia.
      destruct (Z.leb_spec 0 e') as [Hpos | Hneg].
      * split; [apply Z.mul_nonneg_nonneg; [lia | apply Z.pow_nonneg; lia]|].
        destruct Hcases as [-> | ->].
        -- assert (e1 = 0) by lia. subst V. replace e1 with 0 in * by lia.
           rewrite Z.sub_diag in Hval. cbn in Hval, Hmzlt |- *. lia.
        -- replace (e1 + 1 - e1) with 1 in Hval by lia.
           assert (He1c : e1 = -1 \/ e1 = 0) by lia.
           destruct He1c as [He1c | He1c]; subst V; rewrite He1c in *;
             cbn in Hval, Hmzlt |- *; lia.
      * split; [apply Z.div_pos; [lia | apply pow2_pos; lia]|].
        apply Z.div_lt_upper_bound; [apply pow2_pos; lia|].
        destruct Hcases as [-> | ->].
        -- rewrite Z.sub_diag in Hval. fold V. change (2 ^ 0) with 1 in Hval. lia.
        -- replace (e1 + 1 - e1) with 1 in Hval by lia. change (2 ^ 1) with 2 in Hval.
           assert (HV2 : V = 2 * 2 ^ (- (e1 + 1))).
           { unfold V. rewrite <- Z.pow_succ_r by lia. f_equal. lia. }
           rewrite HV2 in Hmzlt.
           replace (N * (2 * 2 ^ (- (e1 + 1)))) with (2 * (N * 2 ^ (- (e1 + 1)))) in Hmzlt by ring.
           rewrite Z.mul_comm. lia.
Qed.

(** [int((1 - f) * N)] is the floor of the product it truncates. *)
Lemma split_index_floor f N :
  valid f = true -> fltb zero f = true -> fleb f one = true -> 0 <= N < 2 ^ 53 ->
  exists x k, float_of_int N = Ok x /\ split_index (fsub one f) N = Ok k /\
              floor (fmul (fsub one f) x) = Some k /\ 0 <= k.
Proof.
  intros Hvalid Hpos Hle HN.
  pose proof (fsub_one_bounded f Hvalid Hpos Hle) as Ha.
  assert (Hnn : exists x, float_of_int N = Ok x /\ nonneg_finite (fmul (fsub one f) x)).
  { destruct (Z.eq_dec N 0) as [-> | HN0].
    - exists zero. split; [reflexivity|].
      destruct Ha as [-> | (p & e & -> & _)]; left; reflexivity.
    - destruct (float_of_int_exact N ltac:(lia)) as (m & e & Hx & He & _ & Hm).
      exists (S754_finite false m e). split; [exact Hx|].
      destruct Ha as [-> | (pa & ea & -> & Hpa & Hea)].
      + left. reflexivity.
      + apply fmul_nonneg_finite; lia. }
  destruct Hnn as (x & Hx & Hnn).
  destruct (int_of_float_nonneg _ Hnn) as (k & Hk & Hfl & Hk0).
  exists x, k. unfold split_index. rewrite Hx. cbn [bind]. auto.
Qed.

(** When the stored clean fraction is below one, the split index is
    below the batch size. *)
Lemma split_index_lt f N :
  valid f = true -> fltb zero f = true -> fleb f one = true ->
  fltb (fsub one f) one = true -> 1 <= N < 2 ^ 53 ->
  exists k, split_index (fsub one f) N = Ok k /\ 0 <= k < N.
Proof.
  intros Hvalid Hpos Hle Hlt HN.
  destruct (float_of_int_exact N ltac:(lia)) as (m & e & Hx & He & Hval & Hm).
  unfold split_index. rewrite Hx. cbn [bind].
  destruct (fsub_one_bounded f Hvalid Hpos Hle) as [Ha | (pa & ea & Ha & Hpa & Hea)];
    rewrite Ha in *.
  - exists 0. split; [reflexivity | lia].
  - apply fmul_below; try assumption; try lia.
    unfold fltb, SFltb, one in Hlt. cbn [SFcompare] in Hlt.
    destruct (Z.compare_spec ea (-52)) as [Heq | Hlt' | Hgt]; try discriminate.
    + right. split; [assumption|].
      rewrite Pos.compare_cont_spec in Hlt. cbn [Pos.switch_Eq] in Hlt.
      change (2 ^ 52) with (Zpos 4503599627370496).
      destruct (Pos.compare_spec pa 4503599627370496) as [Hm' | Hm' | Hm'];
        try discriminate.
      apply Pos2Z.pos_lt_pos. exact Hm'.
    + now left.
Qed.

End Split.

Import Binary64.
Import Split.

(** * The clean fraction [1 - f] against one *)

(** [binary_round] with the exponent of its result: the canonical one, or
    the next one after a carry, which takes the discarded bits to be at
    least half of the last place of an all-ones mantissa. *)
Lemma binary_round_carry p e :
  let e1 := fexp 53 1024 (Zpos (digits2_pos p) + e) in
  e1 < 971 ->
  binary_round 53 1024 false p e = S754_zero false \/
  exists p' e',
    binary_round 53 1024 false p e = S754_finite false p' e' /\
    (e' = e1 /\ Zpos p' < 2 ^ 53 \/
     e' = e1 + 1 /\ e < e1 /\ Zpos p' <= 2 ^ 52 /\
     (Zpos p' = 2 ^ 52 -> (2 ^ 54 - 1) * 2 ^ (e1 - e) <= 2 * Zpos p)).
Proof.
  intros e1 Hmax.
  pose proof (digits2_bounds p) as Hd.
  assert (He1def : e1 = Z.max (Zpos (digits2_pos p) + e - 53) (-1074)) by reflexivity.
  destruct (Z.le_gt_cases e1 e) as [Hle | Hgt].
  - destruct (binary_round_exact false p e Hle ltac:(fold e1; lia)) as (p' & -> & _ & Hp').
    right. exists p', e1. fold e1. split; [reflexivity|]. left. auto.
  - rewrite binary_round_above by (fold e1; lia).
    destruct (round_aux_shift false p e ltac:(fold e1; lia) Hmax)
      as (mz & Hmz & Hup & _ & [[_ ->] | (p' & e' & -> & He' & Hval & Hp')]).
    + now left.
    + fold e1 in Hmz, Hup, He', Hval. right. exists p', e'. split; [reflexivity|].
      set (T := 2 ^ (e1 - e)) in *.
      assert (HT : 0 < T) by (apply Z.pow_pos_nonneg; lia).
      assert (Hq53 : Zpos p / T < 2 ^ 53).
      { apply Z.div_lt_upper_bound; [lia|]. unfold T.
        rewrite <- Z.pow_add_r by lia.
        apply Z.lt_le_trans with (1 := proj2 Hd).
        apply Z.pow_le_mono_r; lia. }
      destruct (Z.eq_dec e' e1) as [-> | Hne]; [left; auto|].
      right. assert (He'1 : e' = e1 + 1) by lia. subst e'.
      replace (e1 + 1 - e1) with 1 in Hval by lia. change (2 ^ 1) with 2 in Hval.
      split; [reflexivity|]. split; [lia|]. split; [lia|].
      intros Hcarry.
      assert (Hmzq : mz = Zpos p / T + 1) by lia.
      specialize (Hup Hmzq).
      pose proof (Z.div_mod (Zpos p) T ltac:(lia)) as Hdm.
      assert (Hq : Zpos p / T = 2 ^ 53 - 1) by lia.
      rewrite Hq in Hdm. lia.
Qed.

Lemma two_52 : 2 ^ 52 = Zpos 4503599627370496.
Proof. reflexivity. Qed.

Lemma pos_lt_2_52 p : Zpos p < 2 ^ 52 -> (p ?= 4503599627370496)%positive = Lt.
Proof. rewrite two_52. intros H. rewrite Pos2Z.inj_compare. apply H. Qed.

(** [x < 1.0] for a positive finite float. *)
Lemma fltb_one_finite p e :
  e < -52 \/ (e = -52 /\ Zpos p < 2 ^ 52) -> fltb (S754_finite false p e) one = true.
Proof.
  intros H. unfold fltb, SFltb, one. cbn [SFcompare].
  destruct (Z.compare_spec e (-52)) as [Heq | Hlt | Hgt].
  - rewrite Pos.compare_cont_spec. cbn [Pos.switch_Eq].
    rewrite pos_lt_2_52 by lia. reflexivity.
  - reflexivity.
  - lia.
Qed.

(** The stored clean fraction is below one, or it is one. *)
Lemma fsub_one_cases f :
  valid f = true -> fltb zero f = true -> fleb f one = true ->
  fltb (fsub one f) one = true \/ fsub one f = one.
Proof.
  intros Hvalid Hpos Hle.
  destruct (unit_interval_inv f Hvalid Hpos Hle) as (m & e & -> & Hm & He).
  unfold fsub, SFsub, one.
  assert (Hmin : Z.min (-52) e = e) by lia. rewrite Hmin.
  assert (Hself : fst (shl_align m e e) = m).
  { unfold shl_align. rewrite Z.sub_diag. reflexivity. }
  assert (Hone : Zpos (fst (shl_align 4503599627370496 (-52) e)) = 2 ^ (- e)).
  { unfold shl_align. destruct (e - -52) as [|d|d] eqn:Hd; try lia.
    - replace e with (-52) by lia. reflexivity.
    - cbn [fst]. rewrite iter_xO_pow. change (Zpos 4503599627370496) with (2 ^ 52).
      rewrite <- Z.pow_add_r by lia. f_equal. lia. }
  rewrite Hself, Hone. cbn [cond_Zopp].
  assert (Hpow : 2 ^ 53 <= 2 ^ (- e) \/ (e = -52 /\ 2 ^ (- e) = 2 ^ 52)).
  { destruct He as [He | [-> _]]; [left | right; split; reflexivity].
    apply Z.pow_le_mono_r; lia. }
  destruct (2 ^ (- e) - Zpos m) as [|d|d] eqn:Hdiff; try lia.
  - left. reflexivity.
  - cbn [binary_normalize].
    pose proof (digits2_bounds d) as Hd.
    assert (Hdd : Zpos (digits2_pos d) <= - e) by (apply digits2_le; lia).
    assert (He1 : fexp 53 1024 (Zpos (digits2_pos d) + e) <= -53) by (rewrite fexp64; lia).
    destruct (binary_round_carry d e ltac:(lia)) as [-> | (p' & e' & -> & Hcases)].
    + left. reflexivity.
    + destruct (Z.eq_dec (Zpos p') (2 ^ 52)) as [Heq | Hne];
        [destruct (Z.eq_dec e' (-52)) as [He' | He']|].
      * right. subst e'. f_equal. apply Pos2Z.inj. exact Heq.
      * left. apply fltb_one_finite. lia.
      * left. apply fltb_one_finite. lia.
Qed.

(** [x < 1.0], read backwards. *)
Lemma fltb_one_inv p e :
  fltb (S754_finite false p e) one = true -> e < -52 \/ (e = -52 /\ Zpos p < 2 ^ 52).
Proof.
  intros Hlt. unfold fltb, SFltb, one in Hlt. cbn [SFcompare] in Hlt.
  destruct (Z.compare_spec e (-52)) as [Heq | Hlt' | Hgt]; try discriminate.
  - right. split; [assumption|].
    rewrite Pos.compare_cont_spec in Hlt. cbn [Pos.switch_Eq] in Hlt.
    rewrite two_52.
    destruct (Pos.compare_spec p 4503599627370496) as [Hm' | Hm' | Hm'];
      try discriminate.
    apply Pos2Z.pos_lt_pos. exact Hm'.
  - now left.
Qed.

(** * The values of the rounded operations

    How far the double-precision difference [1 - f] and the product with
    the batch size are from the rational numbers they round. *)

Lemma pow2Q_pos e : (0 < 2 ^ e)%Q.
Proof. apply Qpower_0_lt. reflexivity. Qed.

Lemma pow2Q_add a b : (2 ^ (a + b) == 2 ^ a * 2 ^ b)%Q.
Proof. apply Qpower_plus. compute. discriminate. Qed.

Lemma pow2Q_inject n : 0 <= n -> (inject_Z (2 ^ n) == 2 ^ n)%Q.
Proof. intros Hn. rewrite Zpower_Qpower by exact Hn. reflexivity. Qed.

Lemma pow2Q_le a b : a <= b -> (2 ^ a <= 2 ^ b)%Q.
Proof. intros H. apply Qpower_le_compat_l; [exact H | compute; discriminate]. Qed.

Lemma pow2Q_cancel e : (2 ^ (- e) * 2 ^ e == 1)%Q.
Proof. rewrite <- pow2Q_add. replace (- e + e) with 0 by lia. reflexivity. Qed.

Lemma value_finite p e : value (S754_finite false p e) = (inject_Z (Zpos p) * 2 ^ e)%Q.
Proof. reflexivity. Qed.

Lemma value_rounds_to mz e1 r :
  rounds_to false mz e1 r -> (value r == inject_Z mz * 2 ^ e1)%Q.
Proof.
  intros [[-> ->] | (p' & e' & -> & He' & Hval & _)].
  - cbn [value]. change (inject_Z 0) with 0%Q. ring.
  - assert (Hp : (2 ^ e' == 2 ^ (e' - e1) * 2 ^ e1)%Q).
    { rewrite <- pow2Q_add. replace (e' - e1 + e1) with e' by lia. reflexivity. }
    rewrite value_finite, <- Hval, inject_Z_mult, pow2Q_inject by lia.
    rewrite Hp. ring.
Qed.

(** Rounding to nearest moves a number by at most half of the last place
    it keeps. *)
Lemma round_aux_shift_value p e :
  let e1 := fexp 53 1024 (Zpos (digits2_pos p) + e) in
  e < e1 -> e1 < 971 ->
  (- 2 ^ e1 <= 2 * (value (binary_round_aux 53 1024 false (Zpos p) e loc_Exact)
                     - inject_Z (Zpos p) * 2 ^ e) <= 2 ^ e1)%Q.
Proof.
  intros e1 He Hmax.
  destruct (round_aux_shift false p e He Hmax) as (mz & Hmz & Hup & Hdown & Hres).
  fold e1 in Hmz, Hup, Hdown, Hres.
  apply value_rounds_to in Hres.
  set (T := (2 ^ (e1 - e))%Z) in *.
  assert (HT : 0 < T) by (apply Z.pow_pos_nonneg; lia).
  pose proof (Z.div_mod (Zpos p) T ltac:(lia)) as Hdm.
  pose proof (Z.mod_pos_bound (Zpos p) T HT) as Hrem.
  set (q := Zpos p / T) in *. set (rem := Zpos p mod T) in *.
  set (D := mz * T - Zpos p).
  assert (Hz : - T <= 2 * D <= T).
  { unfold D. destruct (Z.eq_dec mz q) as [Heq | Hne].
    - specialize (Hdown Heq). rewrite Heq, Hdm. replace (q * T) with (T * q) by ring. lia.
    - assert (Heq : mz = q + 1) by lia. specialize (Hup Heq). rewrite Heq, Hdm.
      replace ((q + 1) * T) with (T * q + T) by ring. lia. }
  assert (Hpow : (2 ^ e1 == inject_Z T * 2 ^ e)%Q).
  { unfold T. rewrite pow2Q_inject by lia. rewrite <- pow2Q_add.
    replace (e1 - e + e) with e1 by lia. reflexivity. }
  assert (HD : (inject_Z D == inject_Z mz * inject_Z T - inject_Z (Zpos p))%Q).
  { unfold D, Z.sub. rewrite inject_Z_plus, inject_Z_opp, inject_Z_mult. reflexivity. }
  pose proof (pow2Q_pos e) as HE.
  destruct Hz as [Hlo Hhi].
  rewrite Zle_Qle in Hlo, Hhi.
  rewrite inject_Z_mult in Hlo, Hhi. rewrite inject_Z_opp in Hlo.
  change (inject_Z 2) with 2%Q in *.
  rewrite Hres, Hpow.
  set (E := (2 ^ e)%Q) in *.
  set (Tq := inject_Z T) in *. set (Dq := inject_Z D) in *.
  set (mq := inject_Z mz) in *. set (Pq := inject_Z (Zpos p)) in *.
  split; nra.
Qed.

Lemma binary_round_value p e :
  let e1 := fexp 53 1024 (Zpos (digits2_pos p) + e) in
  e1 < 971 ->
  (- 2 ^ e1 <= 2 * (value (binary_round 53 1024 false p e) - inject_Z (Zpos p) * 2 ^ e)
   <= 2 ^ e1)%Q.
Proof.
  intros e1 Hmax. pose proof (pow2Q_pos e1) as H1.
  destruct (Z.le_gt_cases e1 e) as [Hle | Hgt].
  - destruct (binary_round_exact false p e Hle ltac:(fold e1; lia)) as (p' & Hr & Hval & _).
    fold e1 in Hr, Hval. rewrite Hr.
    assert (Hp : (2 ^ e == 2 ^ (e - e1) * 2 ^ e1)%Q).
    { rewrite <- pow2Q_add. replace (e - e1 + e1) with e by lia. reflexivity. }
    rewrite value_finite, Hval, inject_Z_mult, pow2Q_inject by lia.
    rewrite Hp.
    set (A := (2 ^ (e - e1))%Q). set (B := (2 ^ e1)%Q) in *.
    set (Pq := inject_Z (Zpos p)).
    assert (Hz : (Pq * A * B - Pq * (A * B) == 0)%Q) by ring.
    rewrite Hz. split; lra.
  - rewrite binary_round_above by (fold e1; lia).
    apply round_aux_shift_value; fold e1; lia.
Qed.

(** The stored clean fraction is within 2^-54 of [1 - f]. *)
Lemma fsub_one_value f :
  valid f = true -> fltb zero f = true -> fleb f one = true ->
  (- 2 ^ (-53) <= 2 * (value (fsub one f) - (1 - value f)) <= 2 ^ (-53))%Q.
Proof.
  intros Hvalid Hpos Hle.
  destruct (unit_interval_inv f Hvalid Hpos Hle) as (m & e & -> & Hm & He).
  pose proof (pow2Q_pos (-53)) as H53.
  assert (Hvf : (1 - value (S754_finite false m e)
                 == inject_Z (2 ^ (- e) - Zpos m) * 2 ^ e)%Q).
  { rewrite value_finite. unfold Z.sub.
    rewrite inject_Z_plus, inject_Z_opp, pow2Q_inject by lia.
    pose proof (pow2Q_cancel e) as Hc.
    set (A := (2 ^ (- e))%Q) in *. set (B := (2 ^ e)%Q) in *.
    set (mq := inject_Z (Zpos m)).
    assert (Hz : ((A + - mq) * B == A * B - mq * B)%Q) by ring.
    rewrite Hz, Hc. reflexivity. }
  rewrite Hvf.
  unfold fsub, SFsub, one.
  assert (Hmin : Z.min (-52) e = e) by lia. rewrite Hmin.
  assert (Hself : fst (shl_align m e e) = m).
  { unfold shl_align. rewrite Z.sub_diag. reflexivity. }
  assert (Hone : Zpos (fst (shl_align 4503599627370496 (-52) e)) = 2 ^ (- e)).
  { unfold shl_align. destruct (e - -52) as [|d|d] eqn:Hd; try lia.
    - replace e with (-52) by lia. reflexivity.
    - cbn [fst]. rewrite iter_xO_pow. change (Zpos 4503599627370496) with (2 ^ 52).
      rewrite <- Z.pow_add_r by lia. f_equal. lia. }
  rewrite Hself, Hone. cbn [cond_Zopp].
  assert (Hpow : 2 ^ 53 <= 2 ^ (- e) \/ (e = -52 /\ 2 ^ (- e) = 2 ^ 52)).
  { destruct He as [He | [-> _]]; [left | right; split; reflexivity].
    apply Z.pow_le_mono_r; lia. }
  destruct (2 ^ (- e) - Zpos m) as [|d|d] eqn:Hdiff; try lia.
  - cbn [binary_normalize value]. change (inject_Z 0) with 0%Q.
    set (B := (2 ^ e)%Q).
    assert (Hz : (0 - 0 * B == 0)%Q) by ring. rewrite Hz. split; lra.
  - cbn [binary_normalize].
    pose proof (digits2_bounds d) as Hd.
    assert (Hdd : Zpos (digits2_pos d) <= - e) by (apply digits2_le; lia).
    assert (He1 : fexp 53 1024 (Zpos (digits2_pos d) + e) <= -53) by (rewrite fexp64; lia).
    pose proof (binary_round_value d e ltac:(lia)) as Hv. cbv zeta in Hv.
    pose proof (pow2Q_le _ _ He1) as Hle1.
    set (E1 := (2 ^ fexp 53 1024 (Zpos (digits2_pos d) + e))%Q) in *.
    set (C := (2 ^ (-53))%Q) in *.
    split; lra.
Qed.

(** The double-precision product of a clean fraction of at most one and
    a batch size is within one half of their product. *)
Lemma fmul_value ma ea mN eN :
  Zpos ma < 2 ^ 53 -> (ea < -52 \/ (ea = -52 /\ Zpos ma <= 2 ^ 52)) ->
  eN <= 0 -> Zpos mN < 2 ^ 53 ->
  (- 1 <= 2 * (value (fmul (S754_finite false ma ea) (S754_finite false mN eN))
               - value (S754_finite false ma ea) * value (S754_finite false mN eN))
   <= 1)%Q.
Proof.
  intros Hma Hea HeN HmN.
  assert (Hprod : (value (S754_finite false ma ea) * value (S754_finite false mN eN)
                   == inject_Z (Zpos (ma * mN)) * 2 ^ (ea + eN))%Q).
  { rewrite !value_finite, Pos2Z.inj_mul, inject_Z_mult, pow2Q_add. ring. }
  rewrite Hprod.
  unfold fmul, SFmul. cbn [xorb].
  set (A := 2 ^ (- ea)).
  assert (HA : 0 < A) by (apply pow2_pos; lia).
  assert (HmaA : Zpos ma <= A).
  { destruct Hea as [Hea | [-> Hm]].
    - apply Z.le_trans with (2 ^ 53); [lia|]. apply Z.pow_le_mono_r; lia.
    - exact Hm. }
  assert (HP : Zpos (ma * mN) < 2 ^ (53 - ea)).
  { rewrite Pos2Z.inj_mul. replace (53 - ea) with (- ea + 53) by lia.
    rewrite Z.pow_add_r by lia. fold A.
    apply Z.le_lt_trans with (A * Zpos mN).
    - apply Z.mul_le_mono_nonneg_r; lia.
    - apply Z.mul_lt_mono_pos_l; lia. }
  assert (Hd : Zpos (digits2_pos (ma * mN)) <= 53 - ea) by (apply digits2_le; [lia | exact HP]).
  set (e1 := fexp 53 1024 (Zpos (digits2_pos (ma * mN)) + (ea + eN))).
  assert (He1 : e1 <= 0) by (unfold e1; rewrite fexp64; lia).
  pose proof (pow2Q_le _ _ He1) as Hle1. change (2 ^ 0)%Q with 1%Q in Hle1.
  pose proof (pow2Q_pos e1) as Hpos1.
  destruct (Z.le_gt_cases e1 (ea + eN)) as [Hle | Hgt].
  - rewrite round_aux_exact by (fold e1; lia).
    rewrite value_finite.
    set (X := (inject_Z (Zpos (ma * mN)) * 2 ^ (ea + eN))%Q).
    split; lra.
  - pose proof (round_aux_shift_value (ma * mN) (ea + eN) ltac:(fold e1; lia) ltac:(fold e1; lia))
      as Hv.
    fold e1 in Hv.
    set (E1 := (2 ^ e1)%Q) in *.
    split; lra.
Qed.

(** [floor] is the floor of the value. *)
Lemma floor_value y k : floor y = Some k -> Qfloor (value y) = k.
Proof.
  destruct y as [s | s | | s m e]; cbn [floor value]; intros H; try discriminate;
    injection H as <-; try reflexivity.
  destruct (Z.leb_spec 0 e) as [Hpos | Hneg].
  - assert (Hv : (inject_Z (cond_Zopp s (Zpos m)) * 2 ^ e
                  == inject_Z (cond_Zopp s (Zpos m * 2 ^ e)))%Q).
    { rewrite <- pow2Q_inject by lia. rewrite <- inject_Z_mult.
      destruct s; cbn [cond_Zopp]; [|reflexivity].
      rewrite <- Z.mul_opp_l. reflexivity. }
    rewrite Hv. apply Qfloor_Z.
  - assert (Hv : (inject_Z (cond_Zopp s (Zpos m)) * 2 ^ e
                  == inject_Z (cond_Zopp s (Zpos m)) / inject_Z (2 ^ (- e)))%Q).
    { rewrite pow2Q_inject by lia. rewrite Qpower_opp. unfold Qdiv.
      rewrite Qinv_involutive. reflexivity. }
    rewrite Hv. symmetry. apply Zdiv_Qdiv.
Qed.

(** Two numbers less than one apart have floors at most one apart. *)
Lemma Qfloor_near u v :
  (- 1 < u - v < 1)%Q -> Qfloor v - 1 <= Qfloor u <= Qfloor v + 1.
Proof.
  intros [Hlo Hhi].
  pose proof (Qfloor_le u) as Hu1. pose proof (Qlt_floor u) as Hu2.
  pose proof (Qfloor_le v) as Hv1. pose proof (Qlt_floor v) as Hv2.
  rewrite inject_Z_plus in Hu2, Hv2. change (inject_Z 1) with 1%Q in *.
  assert (H1 : (inject_Z (Qfloor v) < inject_Z (Qfloor u + 2))%Q).
  { rewrite inject_Z_plus. change (inject_Z 2) with 2%Q. lra. }
  assert (H2 : (inject_Z (Qfloor u) < inject_Z (Qfloor v + 2))%Q).
  { rewrite inject_Z_plus. change (inject_Z 2) with 2%Q. lra. }
  rewrite <- Zlt_Qlt in H1, H2. lia.
Qed.

(** [float(N)] is [N] for a batch size below 2^53. *)
Lemma float_of_int_value N x :
  0 <= N < 2 ^ 53 -> float_of_int N = Ok x -> (value x == inject_Z N)%Q.
Proof.
  intros HN Hx. destruct (Z.eq_dec N 0) as [-> | HN0].
  - rewrite float_of_int_zero in Hx. injection Hx as <-. reflexivity.
  - destruct (float_of_int_exact N ltac:(lia)) as (m & e & Hx2 & He & Hval & Hm).
    rewrite Hx2 in Hx. injection Hx as <-.
    rewrite value_finite, Hval, inject_Z_mult, pow2Q_inject by lia.
    rewrite <- Qmult_assoc, pow2Q_cancel. ring.
Qed.

(** The two roundings of [int((1 - f) * N)] move the product by less than
    one, so the split index is within one of the floor of [(1 - f) * N]. *)
Lemma split_index_near_exact f N :
  valid f = true -> fltb zero f = true -> fleb f one = true -> 0 <= N < 2 ^ 53 ->
  exists x k, float_of_int N = Ok x /\
    split_index (fsub one f) N = Ok k /\
    floor (fmul (fsub one f) x) = Some k /\
    0 <= k /\
    exact_split f N - 1 <= k <= exact_split f N + 1.
Proof.
  intros Hvalid Hpos Hle HN.
  destruct (split_index_floor f N Hvalid Hpos Hle HN) as (x & k & Hx & Hk & Hfloor & Hk0).
  pose proof (floor_value _ _ Hfloor) as Hq.
  pose proof (float_of_int_value N x HN Hx) as HxN.
  assert (Herr : (-1 <= 2 * (value (fmul (fsub one f) x) - value (fsub one f) * value x)
                  <= 1)%Q).
  { pose proof (fsub_one_cases f Hvalid Hpos Hle) as Hcases.
    destruct (fsub_one_bounded f Hvalid Hpos Hle) as [Ha | (pa & ea & Ha & Hpa & Hea)];
      rewrite Ha in *.
    - assert (Hy : fmul (S754_zero false) x = S754_zero false).
      { destruct (Z.eq_dec N 0) as [-> | HN0].
        - rewrite float_of_int_zero in Hx. injection Hx as <-. reflexivity.
        - destruct (float_of_int_exact N ltac:(lia)) as (m & e & Hx2 & _).
          rewrite Hx2 in Hx. injection Hx as <-. reflexivity. }
      rewrite Hy. cbn [value]. set (X := value x).
      assert (Hz : (0 - 0 * X == 0)%Q) by ring. rewrite Hz. split; lra.
    - destruct (Z.eq_dec N 0) as [-> | HN0].
      + rewrite float_of_int_zero in Hx. injection Hx as <-.
        unfold fmul, SFmul, zero. cbn [xorb value cond_Zopp].
        set (X := (inject_Z (Zpos pa) * 2 ^ ea)%Q).
        assert (Hz : (0 - X * 0 == 0)%Q) by ring. rewrite Hz. split; lra.
      + destruct (float_of_int_exact N ltac:(lia)) as (m & e & Hx2 & He & _ & Hm).
        rewrite Hx2 in Hx. injection Hx as <-.
        apply fmul_value; try assumption; try lia.
        destruct Hcases as [Hlt | Hone].
        * apply fltb_one_inv in Hlt. lia.
        * injection Hone as -> ->. right. split; [reflexivity|].
          rewrite two_52. apply Z.le_refl. }
  exists x, k. split; [exact Hx|]. split; [exact Hk|]. split; [exact Hfloor|].
  split; [exact Hk0|].
  rewrite <- Hq. unfold exact_split. apply Qfloor_near.
  pose proof (fsub_one_value f Hvalid Hpos Hle) as Ha.
  rewrite HxN in Herr.
  destruct HN as [HN0 HN53]. rewrite Zle_Qle in HN0. rewrite Zlt_Qlt in HN53.
  rewrite pow2Q_inject in HN53 by lia.
  assert (Hc : (2 ^ (-53) * 2 ^ 53 == 1)%Q) by (rewrite <- pow2Q_add; reflexivity).
  pose proof (pow2Q_pos (-53)) as HC.
  change (inject_Z 0) with 0%Q in HN0.
  set (Y := value (fmul (fsub one f) x)) in *.
  set (Aq := value (fsub one f)) in *.
  set (F := value f) in *. set (Nq := inject_Z N) in *.
  set (Cq := (2 ^ (-53))%Q) in *. set (K := (2 ^ 53)%Q) in *.
  assert (H1 : (Nq * Cq < K * Cq)%Q) by (apply Qmult_lt_compat_r; assumption).
  assert (H2 : (0 <= Nq * (Cq - 2 * (Aq - (1 - F))))%Q).
  { apply Qmult_le_0_compat; lra. }
  assert (H3 : (0 <= Nq * (2 * (Aq - (1 - F)) + Cq))%Q).
  { apply Qmult_le_0_compat; lra. }
  split; lra.
Qed.


(** * Slices and broadcasting *)

Section Slices.
Context {A : Type}.
Implicit Types (l : list A) (k : Z).

Lemma slice_bound_range len k : 0 <= len -> 0 <= slice_bound len k <= len.
Proof. intros Hlen. unfold slice_bound. destruct (Z.ltb_spec k 0); lia. Qed.

Lemma slice_bound_nonneg len k : 0 <= k -> slice_bound len k = Z.min k len.
Proof. intros Hk. unfold slice_bound. destruct (Z.ltb_spec k 0); lia. Qed.

Lemma prefix_firstn k l :
  prefix k l = firstn (Z.to_nat (slice_bound (Z.of_nat (length l)) k)) l.
Proof. unfold prefix, slice. rewrite Z.sub_0_r. reflexivity. Qed.

Lemma suffix_skipn k l :
  suffix k l = skipn (Z.to_nat (slice_bound (Z.of_nat (length l)) k)) l.
Proof.
  unfold suffix, slice. apply firstn_all2.
  rewrite length_skipn.
  pose proof (slice_bound_range (Z.of_nat (length l)) k ltac:(lia)). lia.
Qed.

Lemma prefix_suffix k l : prefix k l ++ suffix k l = l.
Proof. rewrite prefix_firstn, suffix_skipn. apply firstn_skipn. Qed.

Lemma prefix_nonneg k l : 0 <= k -> prefix k l = firstn (Z.to_nat k) l.
Proof.
  intros Hk. rewrite prefix_firstn, slice_bound_nonneg by assumption.
  destruct (Z.le_gt_cases k (Z.of_nat (length l))) as [Hle | Hgt].
  - rewrite Z.min_l by assumption. reflexivity.
  - rewrite Z.min_r by lia. rewrite Nat2Z.id.
    rewrite !firstn_all2; [reflexivity | lia | lia].
Qed.

Lemma suffix_nonneg k l : 0 <= k -> suffix k l = skipn (Z.to_nat k) l.
Proof.
  intros Hk. rewrite suffix_skipn, slice_bound_nonneg by assumption.
  destruct (Z.le_gt_cases k (Z.of_nat (length l))) as [Hle | Hgt].
  - rewrite Z.min_l by assumption. reflexivity.
  - rewrite Z.min_r by lia. rewrite Nat2Z.id.
    rewrite !skipn_all2; [reflexivity | lia | lia].
Qed.

Lemma prefix_0 l : prefix 0 l = [].
Proof. rewrite prefix_nonneg by lia. reflexivity. Qed.

Lemma suffix_0 l : suffix 0 l = l.
Proof. rewrite suffix_nonneg by lia. reflexivity. Qed.

Lemma length_prefix k l :
  0 <= k <= Z.of_nat (length l) -> Z.of_nat (length (prefix k l)) = k.
Proof. intros Hk. rewrite prefix_nonneg, length_firstn by lia. lia. Qed.

Lemma length_suffix k l :
  0 <= k <= Z.of_nat (length l) ->
  Z.of_nat (length (suffix k l)) = Z.of_nat (length l) - k.
Proof. intros Hk. rewrite suffix_nonneg, length_skipn by lia. lia. Qed.

Lemma length_prefix_suffix k l :
  (length (prefix k l) + length (suffix k l))%nat = length l.
Proof. rewrite <- length_app, prefix_suffix. reflexivity. Qed.
End Slices.

Lemma broadcast2_same_length {A B D : Type} (f : A -> B -> D) xs ys :
  length xs = length ys ->
  exists zs, broadcast2 f xs ys = Ok zs /\ length zs = length xs /\
             zs = map (fun p => f (fst p) (snd p)) (combine xs ys).
Proof.
  intros Hlen. unfold broadcast2. rewrite (proj2 (Nat.eqb_eq _ _) Hlen).
  eexists. split; [reflexivity|]. split; [|reflexivity].
  rewrite length_map, length_combine. lia.
Qed.

(** * The training step *)

Section Training.
Context {C : Collaborators}.

Lemma bind_ok {A B : Type} (c : result A) (k : A -> result B) b :
  bind c k = Ok b -> exists a, c = Ok a /\ k a = Ok b.
Proof. destruct c as [a|e]; cbn; [eauto | discriminate]. Qed.

(** What [forward_batch] computed when it returned. *)
Lemma forward_batch_inv fr nw inputs targets fp :
  forward_batch fr nw inputs targets = Ok fp ->
  let n := Z.of_nat (length inputs) in
  let split := fp_split fp in
  let attacked := attack_run (model_eval nw) (suffix split inputs) (suffix split targets) in
  split_index fr n = Ok split /\
  realized_fraction split n = Ok (fp_fraction fp) /\
  broadcast2 add_example (suffix split inputs) (fst attacked) = Ok (fp_adversarial_inputs fp) /\
  fp_clean_targets fp = prefix split targets /\
  fp_adversarial_targets fp = suffix split targets /\
  fp_inputs fp = recombine inputs (prefix split inputs) (fp_adversarial_inputs fp) /\
  fp_net fp = zero_grad (model_train (model_eval nw)) /\
  fp_clean_logits fp = prefix split (forward (fp_net fp) (fp_inputs fp)) /\
  fp_adversarial_logits fp = suffix split (forward (fp_net fp) (fp_inputs fp)) /\
  fp_adversarial_loss fp =
    classification_loss (fp_adversarial_logits fp) (fp_adversarial_targets fp) /\
  fp_mixed fp = (length (fp_adversarial_inputs fp) <? length (fp_inputs fp))%nat /\
  fp_loss fp =
    if fp_mixed fp
    then scalar_add
           (scale (fsub one (fp_fraction fp))
                  (classification_loss (fp_clean_logits fp) (fp_clean_targets fp)))
           (scale (fp_fraction fp) (fp_adversarial_loss fp))
    else fp_adversarial_loss fp.
Proof.
  unfold forward_batch. intros H.
  apply bind_ok in H as (split & Hsplit & H).
  apply bind_ok in H as (fraction' & Hfr & H).
  destruct (attack_run _ _ _) as [perturbations objectives] eqn:Hattack.
  apply bind_ok in H as (adv & Hadv & H).
  injection H as <-. cbn [fp_split fp_fraction fp_clean_targets fp_adversarial_targets
    fp_adversarial_inputs fp_inputs fp_net fp_clean_logits fp_adversarial_logits
    fp_adversarial_loss fp_mixed fp_loss].
  rewrite Hattack. cbn [fst].
  repeat (split; [first [assumption | reflexivity]|]). reflexivity.
Qed.

(** [forward_batch] returns as soon as its three fallible steps do. *)
Lemma forward_batch_ok fr nw inputs targets split fraction' adv :
  let n := Z.of_nat (length inputs) in
  split_index fr n = Ok split ->
  realized_fraction split n = Ok fraction' ->
  broadcast2 add_example (suffix split inputs)
    (fst (attack_run (model_eval nw) (suffix split inputs) (suffix split targets))) = Ok adv ->
  exists fp, forward_batch fr nw inputs targets = Ok fp /\ fp_split fp = split.
Proof.
  intros n Hsplit Hfr Hadv. unfold forward_batch. fold n.
  rewrite Hsplit. cbn [bind]. rewrite Hfr. cbn [bind].
  destruct (attack_run _ _ _) as [perturbations objectives]. cbn [fst] in Hadv.
  rewrite Hadv. cbn [bind]. eexists. split; reflexivity.
Qed.

(** With an empty clean prefix the model is fed the perturbed batch alone
    and the adversarial loss is back-propagated. *)
Lemma forward_batch_split_0 fr nw inputs targets fp :
  forward_batch fr nw inputs targets = Ok fp -> fp_split fp = 0 ->
  fp_inputs fp = fp_adversarial_inputs fp /\ fp_mixed fp = false /\
  fp_loss fp = fp_adversarial_loss fp.
Proof.
  intros H Hsplit. apply forward_batch_inv in H. cbv zeta in H.
  destruct H as (_ & _ & _ & _ & _ & Hin & _ & _ & _ & _ & Hmixed & Hloss).
  rewrite Hsplit, prefix_0 in Hin.
  assert (Hinputs : fp_inputs fp = fp_adversarial_inputs fp).
  { rewrite Hin. unfold recombine.
    destruct (length (fp_adversarial_inputs fp) <? length inputs)%nat; reflexivity. }
  assert (Hm : fp_mixed fp = false).
  { rewrite Hmixed, Hinputs. apply Nat.ltb_irrefl. }
  rewrite Hloss, Hm. auto.
Qed.

Lemma train_batch_inv fr epoch batches b st bt st' :
  train_batch fr epoch batches b st bt = Ok st' ->
  exists fp acc,
    forward_batch fr (ts_net st) (fst bt) (snd bt) = Ok fp /\
    accumulate_train (ts_acc st) fp = Ok acc /\
    ts_writer st' = ts_writer st ++
                    (if b =? batches - 1 then epoch_writes acc fp epoch else []).
Proof.
  unfold train_batch. destruct bt as [inputs targets]. intros H.
  apply bind_ok in H as (fp & Hfp & H).
  apply bind_ok in H as (acc & Hacc & H).
  injection H as <-. exists fp, acc. auto.
Qed.

Lemma train_loop_log fr epoch batches data :
  forall b st st',
    train_loop fr epoch batches b st data = Ok st' ->
    batches = b + Z.of_nat (length data) ->
    exists ws, ts_writer st' = ts_writer st ++ ws /\ epoch_log fr epoch data ws.
Proof.
  induction data as [|bt rest IH]; intros b st st' H Hb.
  - cbn in H. injection H as <-. exists []. rewrite app_nil_r. split; reflexivity.
  - cbn [train_loop] in H. apply bind_ok in H as (st1 & Hbatch & Hrest).
    apply train_batch_inv in Hbatch as (fp & acc & Hfp & _ & Hw).
    cbn [length] in Hb.
    destruct rest as [|bt' rest'].
    + cbn in Hrest. injection Hrest as <-. cbn [length] in Hb.
      replace (b =? batches - 1) with true in Hw by (symmetry; apply Z.eqb_eq; lia).
      eexists. split; [exact Hw|]. cbn. eauto 10.
    + replace (b =? batches - 1) with false in Hw
        by (symmetry; apply Z.eqb_neq; cbn [length] in Hb; lia).
      rewrite app_nil_r in Hw.
      apply IH in Hrest as (ws & Hws & Hlog); [|lia].
      exists ws. rewrite Hws, Hw. split; [reflexivity | exact Hlog].
Qed.

Lemma train_log epoch t t' :
  train epoch t = Ok t' ->
  fraction t' = fraction t /\ max_batches t' = max_batches t /\
  trainset t' = trainset t /\ testset t' = testset t /\
  exists ws, writer t' = writer t ++ ws /\ epoch_log (fraction t) epoch (trainset t) ws.
Proof.
  unfold train. intros H. apply bind_ok in H as (st & Hloop & H).
  injection H as <-. cbn [fraction max_batches trainset testset writer].
  repeat (split; [reflexivity|]).
  apply train_loop_log in Hloop as (ws & Hws & Hlog); [|lia].
  exists ws. auto.
Qed.

Lemma test_writes_inv acc epoch ws :
  test_writes acc epoch = Ok ws -> ws = test_scalars acc epoch.
Proof.
  unfold test_writes. intros H.
  destruct (te_losses acc), (te_errors acc), (te_confidences acc),
    (te_successes acc), (te_norms acc), (te_objectives acc); try discriminate.
  now injection H as <-.
Qed.

Lemma test_log epoch t t' :
  test epoch t = Ok t' ->
  fraction t' = fraction t /\ max_batches t' = max_batches t /\
  trainset t' = trainset t /\ testset t' = testset t /\
  exists nw base acc, NormalTraining_test epoch (net t) = Ok (nw, base) /\
    writer t' = writer t ++ base ++ test_scalars acc epoch.
Proof.
  unfold test. intros H. apply bind_ok in H as ([nw base] & Hbase & H).
  apply bind_ok in H as ([acc b] & Hloop & H).
  apply bind_ok in H as (ws & Hws & H). apply test_writes_inv in Hws. subst ws.
  injection H as <-. cbn [fraction max_batches trainset testset writer fst snd].
  repeat (split; [reflexivity|]). eauto.
Qed.
End Training.

(** * The claims *)

Section Claims.
Context {C : Collaborators}.

(** What the constructor did when it returned. *)
Lemma init_inv a t :
  init a = Ok t ->
  contract a /\
  exists nw base, NormalTraining_init (arg_net a) = Ok (nw, base) /\
    t = {| fraction := fsub one (arg_fraction a); max_batches := 10;
           trainset := arg_trainset a; testset := arg_testset a; net := nw;
           writer := arg_writer a ++ base ++ config_texts (arg_fraction a) |}.
Proof.
  unfold init, contract, assert. intros H.
  destruct (fltb zero (arg_fraction a)); [|discriminate].
  destruct (fleb (arg_fraction a) one); [|discriminate].
  destruct (arg_objective_is_Objective a); [|discriminate].
  destruct (arg_attack_has_norm a); [|discriminate].
  cbn [bind] in H. apply bind_ok in H as ([nw base] & Hbase & H).
  injection H as <-. repeat split. exists nw, base. split; [exact Hbase | reflexivity].
Qed.

(** C7: construction fails with an assertion error exactly when the
    contract is violated (the fraction is not in (0, 1], the objective is
    not an [Objective], or the attack has no [norm]), and before anything
    else is done.  When the contract holds the constructor hands over to
    the base class: it completes when the base constructor does, storing
    the clean fraction [1 - fraction], the cap of 10 test batches and the
    data sets, and otherwise raises what the base constructor raised. *)
Theorem C7_constructor_contract (a : arguments) :
  (~ contract a -> init a = Raise AssertionError) /\
  (contract a ->
     (forall nw base, NormalTraining_init (arg_net a) = Ok (nw, base) ->
        init a = Ok {| fraction := fsub one (arg_fraction a); max_batches := 10;
                       trainset := arg_trainset a; testset := arg_testset a; net := nw;
                       writer := arg_writer a ++ base ++ config_texts (arg_fraction a) |}) /\
     (forall e, NormalTraining_init (arg_net a) = Raise e -> init a = Raise e)).
Proof.
  unfold contract, init, assert. split.
  - intros Hnot.
    destruct (fltb zero (arg_fraction a)); [|reflexivity].
    destruct (fleb (arg_fraction a) one); [|reflexivity].
    destruct (arg_objective_is_Objective a); [|reflexivity].
    destruct (arg_attack_has_norm a); [|reflexivity].
    exfalso. apply Hnot. repeat split.
  - intros (-> & -> & -> & ->). cbn [bind]. split.
    + intros nw base ->. reflexivity.
    + intros e ->. reflexivity.
Qed.

Lemma test_loop_capped cap nw data :
  forall b acc, 0 <= b <= cap ->
    test_loop cap nw b acc data =
    (acc' <- evaluate_all nw acc (firstn (Z.to_nat (cap - b)) data) ;;
     Ok (acc', b + Z.min (Z.of_nat (length data)) (cap - b))).
Proof.
  induction data as [|bt rest IH]; intros b acc Hb.
  - cbn [test_loop length]. rewrite firstn_nil. cbn. f_equal. f_equal. lia.
  - cbn [test_loop]. destruct (Z.geb_spec b cap) as [Hge | Hlt].
    + replace (cap - b) with 0 by lia. cbn. f_equal. f_equal. lia.
    + replace (Z.to_nat (cap - b)) with (S (Z.to_nat (cap - (b + 1)))) by lia.
      cbn [firstn evaluate_all].
      destruct (test_batch nw acc bt) as [acc'|e]; cbn [bind]; [|reflexivity].
      rewrite IH by lia. cbn [length].
      destruct (evaluate_all _ _ _); cbn [bind]; [|reflexivity].
      f_equal. f_equal. lia.
Qed.

(** C4: the adversarial test pass evaluates exactly the first
    min(number of test batches, 10) batches: the loop of [test] is the
    evaluation of the first ten batches of the test set, in order, and
    its counter ends at the minimum of the number of batches and 10, so
    that later batches are never evaluated. *)
Theorem C4_test_pass_capped (a : arguments) (t : trainer) :
  init a = Ok t ->
  forall nw acc data,
    test_loop (max_batches t) nw 0 acc data =
    (acc' <- evaluate_all nw acc (firstn 10 data) ;;
     Ok (acc', Z.min (Z.of_nat (length data)) 10)).
Proof.
  intros Hinit nw acc data.
  apply init_inv in Hinit as (_ & nw' & base & _ & ->). cbn [max_batches].
  rewrite test_loop_capped by lia. reflexivity.
Qed.

(** C5: when the perturbation has as many rows as the adversarial
    sub-batch, the clean sub-batch followed by the perturbed sub-batch has
    exactly the [N] rows of the batch, so has the batch that is fed to
    the model, and the clean targets followed by the adversarial targets
    are the targets of the batch, in their order. *)
Theorem C5_recombination (split : Z) (inputs : list example) (targets : list Z)
    (perturbations : list example) :
  length perturbations = length (suffix split inputs) ->
  exists adversarial_inputs,
    broadcast2 add_example (suffix split inputs) perturbations = Ok adversarial_inputs /\
    length (prefix split inputs ++ adversarial_inputs) = length inputs /\
    length (recombine inputs (prefix split inputs) adversarial_inputs) = length inputs /\
    prefix split targets ++ suffix split targets = targets.
Proof.
  intros Hlen.
  destruct (broadcast2_same_length add_example (suffix split inputs) perturbations
              (eq_sym Hlen)) as (adv & Hadv & Hladv & _).
  exists adv. split; [exact Hadv|].
  pose proof (length_prefix_suffix split inputs) as Hsum.
  assert (Happ : length (prefix split inputs ++ adv) = length inputs).
  { rewrite length_app, Hladv. exact Hsum. }
  split; [exact Happ|]. split; [|apply prefix_suffix].
  unfold recombine. destruct (Nat.ltb_spec (length adv) (length inputs)) as [Hlt | Hge].
  - exact Happ.
  - lia.
Qed.

Lemma success_indicator_spec (t p : Z) :
  - 2 ^ 63 <= t < 2 ^ 63 -> 0 <= p < 2 ^ 63 -> t - p <> - 2 ^ 63 ->
  (success_indicator t p = 0 \/ success_indicator t p = 1) /\
  (success_indicator t p = 1 <-> p <> t).
Proof.
  intros Ht Hp Hmin. unfold success_indicator, clamp_max, abs64, sub64, wrap64.
  change (2 ^ 64) with 18446744073709551616 in *.
  change (2 ^ 63) with 9223372036854775808 in *.
  assert (Hd : exists d, (t - p + 9223372036854775808) mod 18446744073709551616
                           - 9223372036854775808 = d /\
                         - 9223372036854775808 < d < 9223372036854775808 /\
                         (d = 0 <-> p = t)).
  { destruct (Z.lt_ge_cases (t - p) (- 9223372036854775808)) as [Hlow | Hnlow];
      [| destruct (Z.lt_ge_cases (t - p) 9223372036854775808) as [Hmid | Hhigh]].
    - exists (t - p + 18446744073709551616). split; [|lia].
      rewrite <- (Z.mod_unique _ _ (-1) (t - p + 9223372036854775808 + 18446744073709551616));
        lia.
    - exists (t - p). split; [|lia]. rewrite Z.mod_small by lia. lia.
    - lia. }
  destruct Hd as (d & -> & Hd & Hiff).
  rewrite (Z.mod_small (Z.abs d + 9223372036854775808)) by lia.
  split; [lia|]. split; intros H.
  - intros Heq. apply Hiff in Heq. lia.
  - assert (d <> 0) by (intros Hd0; apply H, Hiff, Hd0). lia.
Qed.

(** C6: in the training and in the test pass the attack-success
    indicators are computed by [successes_of]; for class labels and
    predicted classes that are int64 indices (non-negative), every
    indicator is 0 or 1, whatever the number of classes, and it is 1
    exactly when the predicted class, the index returned by
    [torch.max(softmax(logits))], is not the target. *)
Theorem C6_success_indicator (targets : list Z) (logits : list logits_row) :
  length targets = length logits ->
  Forall (fun t => 0 <= t < 2 ^ 63) targets ->
  Forall (fun row => 0 <= snd (softmax_max row) < 2 ^ 63) logits ->
  exists succ,
    successes_of targets logits = Ok succ /\
    Forall2 (fun tr s => (s = 0 \/ s = 1) /\ (s = 1 <-> snd (softmax_max (snd tr)) <> fst tr))
            (combine targets logits) succ.
Proof.
  intros Hlen Ht Hp. unfold successes_of.
  destruct (broadcast2_same_length success_indicator targets
              (map (fun row => snd (softmax_max row)) logits)) as (succ & -> & _ & ->).
  { rewrite length_map. exact Hlen. }
  eexists. split; [reflexivity|].
  revert logits Hlen Ht Hp.
  induction targets as [|t ts IH]; intros [|row rows] Hlen Ht Hp;
    try discriminate; cbn [combine map fst snd]; constructor.
  - cbn [fst snd]. inversion Ht; inversion Hp; subst.
    apply success_indicator_spec; lia.
  - inversion Ht; inversion Hp; subst. apply IH; auto.
Qed.

Lemma epoch_writes_order acc fp epoch :
  exists scalars images,
    epoch_writes acc fp epoch = scalars ++ images /\
    Forall (fun w => is_scalar w = true /\ step_of w = Some epoch /\
                     String.prefix "train/" (tag_of w) = true) scalars /\
    Forall (fun w => is_images w = true /\ step_of w = Some epoch /\
                     String.prefix "train/" (tag_of w) = true) images /\
    (fp_mixed fp = false -> Forall (fun w => clean_tag (tag_of w) = false) (scalars ++ images)) /\
    scalars <> [].
Proof.
  unfold epoch_writes.
  exists ((if fp_mixed fp then clean_scalars acc epoch else []) ++ adversarial_scalars acc epoch),
         (train_images fp epoch).
  split; [now rewrite app_assoc|].
  unfold train_images, clean_scalars, adversarial_scalars.
  destruct (fp_mixed fp); cbn [app]; repeat split;
    try discriminate; repeat constructor.
Qed.

Lemma epoch_log_order fr epoch data ws :
  epoch_log fr epoch data ws ->
  exists scalars images,
    ws = scalars ++ images /\
    Forall (fun w => is_scalar w = true /\ step_of w = Some epoch /\
                     String.prefix "train/" (tag_of w) = true) scalars /\
    Forall (fun w => is_images w = true /\ step_of w = Some epoch /\
                     String.prefix "train/" (tag_of w) = true) images /\
    (data <> [] -> scalars <> []).
Proof.
  destruct data as [|bt rest]; cbn [epoch_log].
  - intros ->. exists [], []. repeat split; try constructor. congruence.
  - intros (acc & fp & _ & _ & _ & _ & ->).
    destruct (epoch_writes_order acc fp epoch) as (sc & im & Heq & Hsc & Him & _ & Hne).
    exists sc, im. auto.
Qed.

Lemma Forall_weaken {A : Type} (P Q : A -> Prop) l :
  (forall x, P x -> Q x) -> Forall P l -> Forall Q l.
Proof. intros HPQ H. eapply Forall_impl; eauto. Qed.

Lemma step_log epoch t t' :
  step epoch t = Ok t' ->
  fraction t' = fraction t /\ max_batches t' = max_batches t /\
  trainset t' = trainset t /\ testset t' = testset t /\
  exists t1 trained nw base acc,
    train epoch t = Ok t1 /\
    NormalTraining_test epoch (net t1) = Ok (nw, base) /\
    epoch_log (fraction t) epoch (trainset t) trained /\
    writer t' = writer t ++ trained ++ base ++ test_scalars acc epoch.
Proof.
  unfold step. intros H. apply bind_ok in H as (t1 & Htrain & Htest).
  pose proof (train_log _ _ _ Htrain) as (Hf1 & Hm1 & Htr1 & Hte1 & trained & Hw1 & Hlog).
  pose proof (test_log _ _ _ Htest) as (Hf2 & Hm2 & Htr2 & Hte2 & nw & base & acc & Hbase & Hw2).
  repeat split; try congruence.
  exists t1, trained, nw, base, acc. repeat split; try assumption.
  rewrite Hw2, Hw1, <- app_assoc. reflexivity.
Qed.

Lemma test_scalars_steps acc epoch :
  Forall (fun w => is_scalar w = true /\ step_of w = Some (epoch + 1) /\
                   String.prefix "test/adversarial_" (tag_of w) = true)
         (test_scalars acc epoch) /\
  length (test_scalars acc epoch) = 6%nat.
Proof. unfold test_scalars. split; [repeat constructor | reflexivity]. Qed.

Lemma run_log epochs :
  (forall e nw nw' base, NormalTraining_test e nw = Ok (nw', base) ->
                         Forall (fun w => is_text w = false) base) ->
  forall t t', run epochs t = Ok t' ->
    exists rest, writer t' = writer t ++ rest /\ Forall (fun w => is_text w = false) rest.
Proof.
  intros Hbase. induction epochs as [|e rest IH]; intros t t' H.
  - cbn in H. injection H as <-. exists []. rewrite app_nil_r. split; constructor.
  - cbn [run] in H. apply bind_ok in H as (t1 & Hstep & Hrun).
    apply step_log in Hstep
      as (_ & _ & _ & _ & t0 & trained & nw & base & acc & _ & Hb & Hlog & Hw).
    apply IH in Hrun as (ws & Hws & Hnotext).
    apply epoch_log_order in Hlog as (sc & im & -> & Hsc & Him & _).
    exists ((sc ++ im) ++ base ++ test_scalars acc e ++ ws).
    split.
    + rewrite Hws, Hw. rewrite <- !app_assoc. reflexivity.
    + rewrite !Forall_app. repeat split.
      * eapply Forall_weaken; [|exact Hsc]. intros [] (Hs & _); try discriminate; reflexivity.
      * eapply Forall_weaken; [|exact Him]. intros [] (Hs & _); try discriminate; reflexivity.
      * eapply Hbase; eauto.
      * repeat constructor.
      * exact Hnotext.
Qed.

(** C8: the three configuration notes are the last writes of the
    constructor, after those of the base constructor; a training epoch
    writes its scalars first and its image grids after them, and nothing
    else; and as long as the base class's test writes no text, no epoch
    that follows the construction writes a text entry, so that the
    configuration is written once, before every epoch. *)
Theorem C8_write_order (a : arguments) (t0 : trainer) :
  init a = Ok t0 ->
  (exists nw base,
      NormalTraining_init (arg_net a) = Ok (nw, base) /\
      writer t0 = arg_writer a ++ base ++ config_texts (arg_fraction a)) /\
  (forall epoch t t',
      train epoch t = Ok t' ->
      exists scalars images,
        writer t' = writer t ++ scalars ++ images /\
        Forall (fun w => is_scalar w = true) scalars /\
        Forall (fun w => is_images w = true) images) /\
  ((forall e nw nw' base, NormalTraining_test e nw = Ok (nw', base) ->
                          Forall (fun w => is_text w = false) base) ->
   forall epochs t,
     run epochs t0 = Ok t ->
     exists rest, writer t = writer t0 ++ rest /\
                  Forall (fun w => is_text w = false) rest).
Proof.
  intros Hinit. split; [|split].
  - apply init_inv in Hinit as (_ & nw & base & Hbase & ->). exists nw, base. auto.
  - intros epoch t t' Htrain.
    apply train_log in Htrain as (_ & _ & _ & _ & ws & Hw & Hlog).
    apply epoch_log_order in Hlog as (sc & im & -> & Hsc & Him & _).
    exists sc, im. split; [exact Hw|]. split.
    + eapply Forall_weaken; [|exact Hsc]. now intros w (H & _).
    + eapply Forall_weaken; [|exact Him]. now intros w (H & _).
  - intros Hbase epochs t Hrun. eapply run_log; eauto.
Qed.

(** C10: one call of [step epoch] writes the training scalars and images
    under [train/...] with global step [epoch] (at least one of them when
    the training set is not empty), then what the base class's test
    writes, then exactly six scalars [test/adversarial_...] with global
    step [epoch + 1]. *)
Theorem C10_global_steps (epoch : Z) (t t' : trainer) :
  step epoch t = Ok t' ->
  exists trained base tested,
    writer t' = writer t ++ trained ++ base ++ tested /\
    Forall (fun w => step_of w = Some epoch /\ String.prefix "train/" (tag_of w) = true)
           trained /\
    (trainset t <> [] -> trained <> []) /\
    (exists t1 nw, train epoch t = Ok t1 /\
                   NormalTraining_test epoch (net t1) = Ok (nw, base)) /\
    Forall (fun w => is_scalar w = true /\ step_of w = Some (epoch + 1) /\
                     String.prefix "test/adversarial_" (tag_of w) = true) tested /\
    length tested = 6%nat.
Proof.
  intros Hstep.
  apply step_log in Hstep
    as (_ & _ & _ & _ & t1 & trained & nw & base & acc & Htrain & Hb & Hlog & Hw).
  apply epoch_log_order in Hlog as (sc & im & -> & Hsc & Him & Hne).
  exists (sc ++ im), base, (test_scalars acc epoch).
  split; [exact Hw|]. split; [|split; [|split; [eauto|apply test_scalars_steps]]].
  - apply Forall_app. split.
    + eapply Forall_weaken; [|exact Hsc]. now intros w (_ & H).
    + eapply Forall_weaken; [|exact Him]. now intros w (_ & H).
  - intros Hdata Happ. apply app_eq_nil in Happ as [Hnil _]. now apply Hne.
Qed.

(** C2 (amended): for a fraction [f] in (0, 1] and a batch of [N < 2^53]
    rows, the split index [int((1 - f) * N)] exists and is the floor of
    the double-precision product of the stored difference [1 - f] and
    [float(N)], which is [N] itself; it is within one of the floor of
    [(1 - f) * N] taken over the rationals; and the clean partition is the
    prefix of that length, the adversarial partition the rest. *)
Theorem C2_split_index_near_floor (f : float) (inputs : list example) (targets : list Z) :
  valid f = true -> fltb zero f = true -> fleb f one = true ->
  Z.of_nat (length inputs) < 2 ^ 53 ->
  exists x k,
    float_of_int (Z.of_nat (length inputs)) = Ok x /\
    (value x == inject_Z (Z.of_nat (length inputs)))%Q /\
    split_index (fsub one f) (Z.of_nat (length inputs)) = Ok k /\
    floor (fmul (fsub one f) x) = Some k /\
    Qfloor (value (fmul (fsub one f) x)) = k /\
    exact_split f (Z.of_nat (length inputs)) - 1 <= k
      <= exact_split f (Z.of_nat (length inputs)) + 1 /\
    (forall nw fp,
       forward_batch (fsub one f) nw inputs targets = Ok fp ->
       fp_split fp = k /\
       fp_clean_targets fp = firstn (Z.to_nat k) targets /\
       fp_adversarial_targets fp = skipn (Z.to_nat k) targets) /\
    prefix k inputs = firstn (Z.to_nat k) inputs /\
    suffix k inputs = skipn (Z.to_nat k) inputs.
Proof.
  intros Hvalid Hpos Hle HN.
  destruct (split_index_near_exact f (Z.of_nat (length inputs)) Hvalid Hpos Hle ltac:(lia))
    as (x & k & Hx & Hk & Hfloor & Hk0 & Hnear).
  exists x, k.
  split; [exact Hx|].
  split; [apply float_of_int_value; [lia | exact Hx]|].
  split; [exact Hk|]. split; [exact Hfloor|].
  split; [apply floor_value; exact Hfloor|]. split; [exact Hnear|].
  split; [|split; [apply prefix_nonneg | apply suffix_nonneg]; exact Hk0].
  intros nw fp Hfp. apply forward_batch_inv in Hfp. cbv zeta in Hfp.
  destruct Hfp as (Hsplit & _ & _ & Hct & Hat & _).
  rewrite Hk in Hsplit. injection Hsplit as Hsplit. rewrite <- Hsplit in *.
  split; [reflexivity|]. rewrite Hct, Hat.
  split; [apply prefix_nonneg | apply suffix_nonneg]; exact Hk0.
Qed.

Lemma split_index_zero n k : split_index zero n = Ok k -> k = 0.
Proof.
  unfold split_index, float_of_int. intros H.
  destruct (binary_normalize 53 1024 n 0 false); cbn in H; try discriminate;
    injection H as <-; reflexivity.
Qed.

Lemma realized_fraction_0 n :
  1 <= n < 2 ^ 53 -> exists fr, realized_fraction 0 n = Ok fr.
Proof.
  intros Hn. unfold realized_fraction.
  destruct (Split.float_of_int_exact n ltac:(lia)) as (m & e & -> & _).
  cbn. eauto.
Qed.

(** C3: when the constructor fraction is 1 the stored clean fraction is
    0; every batch of at least one row (and fewer than 2^53) whose attack
    returns one perturbation per row goes through the forward pass, the
    split index of every batch is 0 and the loss that is back-propagated
    is the adversarial loss itself; and a training epoch sends no
    [train/loss], [train/error] or [train/confidence] scalar to the
    writer. *)
Theorem C3_fraction_one (a : arguments) (t : trainer) :
  init a = Ok t -> arg_fraction a = one ->
  (forall nw inputs targets,
      1 <= Z.of_nat (length inputs) < 2 ^ 53 ->
      length (fst (attack_run (model_eval nw) inputs targets)) = length inputs ->
      exists fp, forward_batch (fraction t) nw inputs targets = Ok fp) /\
  (forall nw inputs targets fp,
      forward_batch (fraction t) nw inputs targets = Ok fp ->
      fp_split fp = 0 /\ fp_loss fp = fp_adversarial_loss fp) /\
  (forall epoch t',
      train epoch t = Ok t' ->
      exists ws, writer t' = writer t ++ ws /\
                 Forall (fun w => clean_tag (tag_of w) = false) ws).
Proof.
  intros Hinit Hone. apply init_inv in Hinit as (_ & nw0 & base & _ & ->).
  cbn [fraction writer trainset]. rewrite Hone. change (fsub one one) with zero.
  assert (Hsplit0 : forall nw inputs targets fp,
             forward_batch zero nw inputs targets = Ok fp -> fp_split fp = 0).
  { intros nw inputs targets fp Hfp. apply forward_batch_inv in Hfp. cbv zeta in Hfp.
    destruct Hfp as (Hsplit & _). eapply split_index_zero; eauto. }
  split; [|split].
  - intros nw inputs targets Hlen Hattack.
    destruct (Split.float_of_int_exact (Z.of_nat (length inputs)) ltac:(lia))
      as (m & e & Hx & _).
    assert (Hs : split_index zero (Z.of_nat (length inputs)) = Ok 0).
    { unfold split_index. rewrite Hx. reflexivity. }
    destruct (realized_fraction_0 (Z.of_nat (length inputs)) Hlen) as (fr & Hfr).
    destruct (broadcast2_same_length add_example inputs
                (fst (attack_run (model_eval nw) inputs targets)) (eq_sym Hattack))
      as (adv & Hadv & _).
    destruct (forward_batch_ok zero nw inputs targets 0 fr adv Hs Hfr) as (fp & Hfp & _).
    { rewrite !suffix_0. exact Hadv. }
    eauto.
  - intros nw inputs targets fp Hfp.
    pose proof (Hsplit0 _ _ _ _ Hfp) as Hs.
    split; [exact Hs|]. eapply forward_batch_split_0; eauto.
  - intros epoch t' Htrain.
    apply train_log in Htrain as (_ & _ & _ & _ & ws & Hw & Hlog).
    cbn [fraction writer trainset] in Hw, Hlog.
    exists ws. split; [exact Hw|].
    destruct (arg_trainset a) as [|bt rest]; cbn [epoch_log] in Hlog.
    + subst ws. constructor.
    + destruct Hlog as (acc & fp & nw & inputs & targets & Hfp & ->).
      destruct (epoch_writes_order acc fp epoch) as (sc & im & -> & _ & _ & Hclean & _).
      apply Hclean. eapply forward_batch_split_0; eauto.
Qed.

(** C9 (amended): for a fraction [f] in (0, 1] whose stored complement
    [1 - f], rounded to double precision, is below 1, and a batch of
    [1 <= N < 2^53] rows, the split index is below [N], so the adversarial
    suffix is not empty; and whenever the split index is 0 the model is
    fed the perturbed batch alone and the adversarial loss alone is
    back-propagated. *)
Theorem C9_adversarial_suffix_nonempty (f : float) (inputs : list example)
    (targets : list Z) :
  valid f = true -> fltb zero f = true -> fleb f one = true ->
  fltb (fsub one f) one = true ->
  1 <= Z.of_nat (length inputs) < 2 ^ 53 ->
  (exists k, split_index (fsub one f) (Z.of_nat (length inputs)) = Ok k /\
             0 <= k < Z.of_nat (length inputs) /\
             suffix k inputs <> []) /\
  (forall nw fp,
      forward_batch (fsub one f) nw inputs targets = Ok fp -> fp_split fp = 0 ->
      fp_inputs fp = fp_adversarial_inputs fp /\ fp_mixed fp = false /\
      fp_loss fp = fp_adversarial_loss fp).
Proof.
  intros Hvalid Hpos Hle Hlt HN. split.
  - destruct (Split.split_index_lt f _ Hvalid Hpos Hle Hlt HN) as (k & Hk & Hrange).
    exists k. split; [exact Hk|]. split; [exact Hrange|].
    intros Hnil. pose proof (length_suffix k inputs ltac:(lia)) as Hlen.
    rewrite Hnil in Hlen. cbn [length] in Hlen. lia.
  - intros nw fp Hfp Hs. eapply forward_batch_split_0; eauto.
Qed.

End Claims.

#[local] Existing Instance Toy.collaborators.

(** C9, as stated, fails: for [f = 2^-60] the difference [1 - f] rounds to
    1, and a batch of one row is split at index 1, leaving no row to
    attack. *)
Lemma C9_tiny_fraction_counterexample :
  ~ (forall (f : float) (n : Z),
       valid f = true -> fltb zero f = true -> fleb f one = true -> 1 <= n ->
       exists k, split_index (fsub one f) n = Ok k /\ k < n).
Proof.
  intros H.
  destruct (H Toy.tiny 1 eq_refl eq_refl eq_refl ltac:(lia)) as (k & Hk & Hlt).
  vm_compute in Hk. injection Hk as <-. lia.
Qed.

(** C2, as stated, fails.  At [f = 0.1], a fraction the constructor
    accepts, and a batch of ten rows the code splits at 9: [1 - 0.1] is
    the double 0.9 and [0.9 * 10] rounds to 9.0; the floor of
    [(1 - f) * 10] is 8, the double 0.1 being above one tenth.  At
    [f = 0.3] and a batch of ninety rows the code splits at 62, where the
    floor is 63. *)
Lemma C2_floor_counterexample :
  (valid Toy.tenth = true /\ fltb zero Toy.tenth = true /\ fleb Toy.tenth one = true /\
   split_index (fsub one Toy.tenth) 10 = Ok 9 /\ exact_split Toy.tenth 10 = 8) /\
  (valid Toy.three_tenths = true /\ fltb zero Toy.three_tenths = true /\
   fleb Toy.three_tenths one = true /\
   split_index (fsub one Toy.three_tenths) 90 = Ok 62 /\
   exact_split Toy.three_tenths 90 = 63).
Proof.
  split.
  - split; [reflexivity|]. split; [reflexivity|]. split; [reflexivity|].
    split; vm_compute; reflexivity.
  - split; [reflexivity|]. split; [reflexivity|]. split; [reflexivity|].
    split; vm_compute; reflexivity.
Qed.

(** C1: at a constructor fraction of 0.25 and a batch of four rows the
    split index is 3 and both partitions exist; with a clean loss of 0 and
    an adversarial loss of 1 the loss that is back-propagated is 0.75,
    where the convex combination weighted by the adversarial fraction
    [(N - split) / N = 0.25] is 0.25: the code weights the adversarial loss
    by the clean fraction [split / N]. *)
Theorem C1_loss_weights_swapped :
  exists fp,
    forward_batch (C := Toy.collaborators) (fsub one Toy.quarter) 0%nat
      (fst Toy.four_rows) (snd Toy.four_rows) = Ok fp /\
    fp_split fp = 3 /\ fp_mixed fp = true /\
    classification_loss (Collaborators := Toy.collaborators)
      (fp_clean_logits fp) (fp_clean_targets fp) = zero /\
    fp_adversarial_loss fp = one /\
    fp_loss fp = Toy.three_quarters /\
    specified_loss (C := Toy.collaborators) 3 4 zero one = Ok Toy.quarter.
Proof.
  exists Toy.mixed_pass.
  split; [reflexivity|]. split; [reflexivity|]. split; [reflexivity|].
  split; [reflexivity|]. split; [reflexivity|]. split; reflexivity.
Qed.

(** * The theorems at concrete inputs *)

Lemma C2_witness :
  exists k,
    split_index (fsub one Toy.tenth) 10 = Ok k /\
    exact_split Toy.tenth 10 - 1 <= k <= exact_split Toy.tenth 10 + 1 /\
    prefix k (fst Toy.ten_rows) = firstn (Z.to_nat k) (fst Toy.ten_rows).
Proof.
  destruct (C2_split_index_near_floor (C := Toy.collaborators) Toy.tenth
              (fst Toy.ten_rows) (snd Toy.ten_rows) eq_refl eq_refl eq_refl eq_refl)
    as (x & k & _ & _ & Hk & _ & _ & Hnear & _ & Hprefix & _).
  exists k. split; [exact Hk|]. split; [exact Hnear | exact Hprefix].
Defined.

Lemma C3_witness :
  init (Toy.args one) = Ok (Toy.constructed one) /\
  (forall nw inputs targets fp,
      forward_batch (fraction (Toy.constructed one)) nw inputs targets = Ok fp ->
      fp_split fp = 0 /\ fp_loss fp = fp_adversarial_loss fp).
Proof.
  split; [reflexivity|].
  exact (proj1 (proj2 (C3_fraction_one (Toy.args one) (Toy.constructed one) eq_refl eq_refl))).
Defined.

Lemma C4_witness :
  init (Toy.args Toy.quarter) = Ok (Toy.constructed Toy.quarter) /\
  forall nw acc data,
    test_loop (max_batches (Toy.constructed Toy.quarter)) nw 0 acc data =
    (acc' <- evaluate_all nw acc (firstn 10 data) ;;
     Ok (acc', Z.min (Z.of_nat (length data)) 10)).
Proof.
  split; [reflexivity|].
  exact (C4_test_pass_capped (Toy.args Toy.quarter) (Toy.constructed Toy.quarter) eq_refl).
Defined.

Lemma C5_witness :
  exists adversarial_inputs,
    broadcast2 (add_example (Collaborators := Toy.collaborators))
      (suffix 3 (fst Toy.four_rows)) [1] = Ok adversarial_inputs /\
    length (prefix 3 (fst Toy.four_rows) ++ adversarial_inputs) = 4%nat.
Proof.
  destruct (C5_recombination (C := Toy.collaborators) 3 (fst Toy.four_rows)
              (snd Toy.four_rows) [1] eq_refl) as (adv & Hadv & Hlen & _).
  exists adv. split; [exact Hadv | exact Hlen].
Defined.

Lemma C6_witness :
  exists succ,
    successes_of (C := Toy.collaborators) [0; 1] [1; 1] = Ok succ /\
    Forall2 (fun tr s => (s = 0 \/ s = 1) /\ (s = 1 <-> snd tr <> fst tr))
            (combine [0; 1] [1; 1]) succ.
Proof.
  apply (C6_success_indicator (C := Toy.collaborators) [0; 1] [1; 1]).
  - reflexivity.
  - repeat constructor; lia.
  - repeat constructor; cbn; lia.
Defined.

Lemma C7_witness :
  init (Toy.args Toy.quarter) = Ok (Toy.constructed Toy.quarter) /\
  init (Toy.args zero) = Raise AssertionError.
Proof.
  split.
  - exact (proj1 (proj2 (C7_constructor_contract (Toy.args Toy.quarter))
                    (conj eq_refl (conj eq_refl (conj eq_refl eq_refl))))
                 0%nat [] eq_refl).
  - apply (proj1 (C7_constructor_contract (Toy.args zero))).
    intros (Hpos & _). discriminate Hpos.
Defined.

Lemma C8_witness :
  run [0; 1] (Toy.constructed Toy.quarter) =
    Ok (Toy.after_two_epochs) /\
  exists rest,
    writer (Toy.after_two_epochs) =
      writer (Toy.constructed Toy.quarter) ++ rest /\
    Forall (fun w => is_text w = false) rest.
Proof.
  split; [reflexivity|].
  apply (proj2 (proj2 (C8_write_order (Toy.args Toy.quarter) (Toy.constructed Toy.quarter)
                         eq_refl))) with (epochs := [0; 1]).
  - intros e nw nw' base H. injection H as _ <-. repeat constructor.
  - reflexivity.
Defined.

Lemma C9_witness :
  exists k, split_index (fsub one Toy.quarter) 4 = Ok k /\ 0 <= k < 4.
Proof.
  assert (Hn : 1 <= Z.of_nat (length (fst Toy.four_rows)) < 2 ^ 53) by (cbn; lia).
  destruct (proj1 (C9_adversarial_suffix_nonempty (C := Toy.collaborators) Toy.quarter
                     (fst Toy.four_rows) (snd Toy.four_rows)
                     eq_refl eq_refl eq_refl eq_refl Hn))
    as (k & Hk & Hrange & _).
  exists k. split; [exact Hk | exact Hrange].
Defined.

Lemma C10_witness :
  step 0 (Toy.constructed Toy.quarter) = Ok (Toy.after_one_epoch) /\
  exists trained base tested,
    writer (Toy.after_one_epoch) =
      writer (Toy.constructed Toy.quarter) ++ trained ++ base ++ tested /\
    Forall (fun w => step_of w = Some 0) trained /\
    Forall (fun w => step_of w = Some 1) tested.
Proof.
  split; [reflexivity|].
  destruct (C10_global_steps 0 (Toy.constructed Toy.quarter)
              (Toy.after_one_epoch) eq_refl)
    as (trained & base & tested & Hw & Htr & _ & _ & Hte & _).
  exists trained, base, tested. split; [exact Hw|]. split.
  - eapply Forall_impl; [|exact Htr]. intros w H. exact (proj1 H).
  - eapply Forall_impl; [|exact Hte]. intros w H. exact (proj1 (proj2 H)).
Defined.

(** * Further properties of the split and of the training epoch *)

(** When the bits that are shifted out are all zero the rounding is exact. *)
Lemma round_aux_shift_exact s p e :
  let e1 := fexp 53 1024 (Zpos (digits2_pos p) + e) in
  let n := e1 - e in
  e < e1 -> e1 <= 971 -> Zpos p mod 2 ^ n = 0 ->
  exists q, Zpos q = Zpos p / 2 ^ n /\ Zpos q < 2 ^ 53 /\
            binary_round_aux 53 1024 s (Zpos p) e loc_Exact = S754_finite s q e1.
Proof.
  intros e1 n He1 Hmax Hmod.
  pose proof (digits2_bounds p) as Hd.
  assert (He1def : e1 = Z.max (Zpos (digits2_pos p) + e - 53) (-1074)) by reflexivity.
  assert (Hn : 0 < n) by (unfold n; lia).
  destruct n as [|k|k] eqn:Hnk; try lia.
  unfold binary_round_aux, shr_fexp.
  cbn [Zdigits2 shr_record_of_loc].
  fold e1. replace (e1 - e) with (Zpos k) by (unfold n in Hnk; lia).
  cbn [shr].
  destruct (shr_inv_iter (Zpos p) k ltac:(lia)) as (low & Hlow & Hq & Heq & Hs).
  destruct (iter_pos shr_1 k _) as [q r sb]; cbn [shr_m shr_r shr_s] in *.
  pose proof (pow2_double (Zpos k) ltac:(lia)) as Hp.
  assert (Hpos : 0 < 2 ^ (Zpos k - 1)) by (apply Z.pow_pos_nonneg; lia).
  assert (Hrem : 0 <= b2z r * 2 ^ (Zpos k - 1) + low < 2 ^ Zpos k).
  { destruct r; cbn [b2z]; lia. }
  assert (Hdiv : Zpos p / 2 ^ Zpos k = q).
  { symmetry. apply Z.div_unique with (r := b2z r * 2 ^ (Zpos k - 1) + low); [lia|].
    rewrite Heq. ring. }
  assert (Hmod' : Zpos p mod 2 ^ Zpos k = b2z r * 2 ^ (Zpos k - 1) + low).
  { symmetry. apply Z.mod_unique with (q := q); [lia|]. rewrite Heq. ring. }
  rewrite Hmod in Hmod'.
  assert (Hr : r = false) by (destruct r; [cbn [b2z] in Hmod'; lia | reflexivity]).
  subst r. cbn [b2z] in *.
  assert (Hq53 : q < 2 ^ 53).
  { rewrite <- Hdiv. apply Z.div_lt_upper_bound; [lia|].
    rewrite <- Z.pow_add_r by lia.
    apply Z.lt_le_trans with (1 := proj2 Hd).
    apply Z.pow_le_mono_r; lia. }
  assert (Hq0 : 0 < q).
  { destruct (Z.eq_dec q 0) as [Hq0 | Hq0]; [|lia]. rewrite Hq0 in Heq. lia. }
  assert (Hround : round_nearest_even q (loc_of_shr_record (Build_shr_record q false sb)) = q).
  { destruct sb; reflexivity. }
  rewrite Hround. replace (e + Zpos k) with e1 by (unfold n in Hnk; lia).
  destruct q as [|pz|pz]; try lia.
  exists pz. rewrite Hdiv. split; [reflexivity|]. split; [assumption|].
  cbn [Zdigits2].
  assert (Hdz53 : Zpos (digits2_pos pz) <= 53) by (apply digits2_le; lia).
  rewrite shr_nonpos by (rewrite fexp64; lia).
  cbn [shr_record_of_loc shr_m]. change (1024 - 53) with 971.
  destruct (Z.leb_spec e1 971); [reflexivity | lia].
Qed.

(** Multiplying an exact batch size by a power of two [2^j], [-60 <= j <= 0]. *)
Lemma fmul_pow2 j n :
  -60 <= j <= 0 -> 0 < n < 2 ^ 53 ->
  exists x, float_of_int n = Ok x /\
            int_of_float (fmul (S754_finite false 4503599627370496 (j - 52)) x) = Ok (n / 2 ^ (- j)).
Proof.
  intros Hj Hn.
  destruct n as [|p|p]; try lia.
  unfold float_of_int, binary_normalize.
  pose proof (digits2_bounds p) as Hd.
  assert (Hd53 : Zpos (digits2_pos p) <= 53) by (apply digits2_le; lia).
  assert (He1 : fexp 53 1024 (Zpos (digits2_pos p) + 0) = Zpos (digits2_pos p) - 53).
  { rewrite fexp64. lia. }
  destruct (binary_round_exact false p 0) as (m & Hr & Hval & Hm); try (rewrite He1; lia).
  rewrite He1 in Hr, Hval. rewrite Hr.
  set (eN := Zpos (digits2_pos p) - 53) in *.
  eexists. split; [reflexivity|].
  unfold fmul, SFmul. cbn [xorb].
  (* the mantissa of the batch size has exactly 53 bits *)
  assert (Hm52 : 2 ^ 52 <= Zpos m).
  { rewrite Hval. replace (0 - eN) with (- eN) by lia.
    apply Z.le_trans with (2 ^ (Zpos (digits2_pos p) - 1) * 2 ^ (- eN)).
    - rewrite <- Z.pow_add_r by lia. apply Z.pow_le_mono_r; lia.
    - apply Z.mul_le_mono_nonneg_r; [apply Z.pow_nonneg|]; lia. }
  assert (HP : Zpos (4503599627370496 * m) = 2 ^ 52 * Zpos m) by (rewrite Pos2Z.inj_mul; reflexivity).
  assert (HdP : Zpos (digits2_pos (4503599627370496 * m)) = 105).
  { pose proof (digits2_bounds (4503599627370496 * m)) as HdP. rewrite HP in HdP.
    assert (Hle : Zpos (digits2_pos (4503599627370496 * m)) <= 105).
    { apply digits2_le; [lia|]. rewrite HP. change (2 ^ 105) with (2 ^ 52 * 2 ^ 53). lia. }
    destruct (Z.eq_dec (Zpos (digits2_pos (4503599627370496 * m))) 105) as [|Hne]; [assumption|].
    exfalso.
    assert (2 ^ Zpos (digits2_pos (4503599627370496 * m)) <= 2 ^ 104)
      by (apply Z.pow_le_mono_r; lia).
    change (2 ^ 104) with (2 ^ 52 * 2 ^ 52) in *. lia. }
  assert (Hfexp : fexp 53 1024 (Zpos (digits2_pos (4503599627370496 * m)) + (j - 52 + eN))
                  = j + eN).
  { rewrite HdP, fexp64. unfold eN. lia. }
  destruct (round_aux_shift_exact false (4503599627370496 * m) (j - 52 + eN)) as (q & Hq & _ & Hres).
  - rewrite Hfexp. lia.
  - rewrite Hfexp. unfold eN. lia.
  - rewrite Hfexp, HP. replace (j + eN - (j - 52 + eN)) with 52 by lia.
    rewrite Z.mul_comm. apply Z_mod_mult.
  - rewrite Hres, Hfexp. rewrite Hfexp, HP in Hq.
    replace (j + eN - (j - 52 + eN)) with 52 in Hq by lia.
    rewrite Z.mul_comm, Z_div_mult in Hq by lia.
    cbn [int_of_float cond_Zopp]. rewrite Hq, Hval. replace (0 - eN) with (- eN) by lia.
    f_equal.
    destruct (Z.leb_spec 0 (j + eN)) as [Hge | Hlt].
    + assert (j = 0 /\ eN = 0) as [-> ->] by (unfold eN in *; lia).
      change (2 ^ (- 0)) with 1. change (2 ^ (0 + 0)) with 1.
      rewrite !Z.mul_1_r, Z.div_1_r. reflexivity.
    + replace (- (j + eN)) with (- eN + - j) by lia.
      rewrite Z.pow_add_r by (unfold eN; lia).
      rewrite (Z.mul_comm (Zpos p)).
      rewrite Z.div_mul_cancel_l; [reflexivity | | ];
        apply Z.neq_sym, Z.lt_neq, Z.pow_pos_nonneg; unfold eN; lia.
Qed.

Lemma fsub_one_below f :
  valid f = true -> fleb min_fraction f = true -> fleb f one = true ->
  fltb (fsub one f) one = true.
Proof.
  intros Hvalid Hmin Hle.
  assert (Hpos : fltb zero f = true).
  { destruct f as [s | s | | s m e]; try destruct s; try discriminate; reflexivity. }
  destruct (unit_interval_inv f Hvalid Hpos Hle) as (m & e & -> & Hm & He).
  (* the fraction is a normal float of at least 2^-53 *)
  assert (Hnormal : -105 <= e /\ 2 ^ 52 <= Zpos m).
  { unfold valid in Hvalid. cbn [valid_binary] in Hvalid.
    unfold bounded, canonical_mantissa in Hvalid.
    apply andb_true_iff in Hvalid as [Hcan _]. apply Z.eqb_eq in Hcan.
    rewrite fexp64 in Hcan.
    pose proof (digits2_bounds m) as Hd.
    unfold fleb, SFleb, min_fraction in Hmin. cbn [SFcompare] in Hmin.
    destruct (Z.compare_spec (-105) e) as [Heq | Hlt | Hgt]; try discriminate.
    - split; [lia|]. subst e.
      rewrite Pos.compare_cont_spec in Hmin. cbn [Pos.switch_Eq] in Hmin.
      change (2 ^ 52) with (Zpos 4503599627370496).
      destruct (Pos.compare_spec 4503599627370496 m) as [Hc | Hc | Hc]; try discriminate.
      + rewrite <- Hc. apply Z.le_refl.
      + apply Z.lt_le_incl, Pos2Z.pos_lt_pos, Hc.
    - split; [lia|].
      assert (Hdm : Zpos (digits2_pos m) = 53) by lia.
      rewrite Hdm in Hd. exact (proj1 Hd). }
  destruct Hnormal as (He105 & Hm52).
  unfold fsub, SFsub, one.
  assert (Hmin' : Z.min (-52) e = e) by lia. rewrite Hmin'.
  assert (Hself : fst (shl_align m e e) = m).
  { unfold shl_align. rewrite Z.sub_diag. reflexivity. }
  assert (Hone : Zpos (fst (shl_align 4503599627370496 (-52) e)) = 2 ^ (- e)).
  { unfold shl_align. destruct (e - -52) as [|d|d] eqn:Hd; try lia.
    - replace e with (-52) by lia. reflexivity.
    - cbn [fst]. rewrite iter_xO_pow. change (Zpos 4503599627370496) with (2 ^ 52).
      rewrite <- Z.pow_add_r by lia. f_equal. lia. }
  rewrite Hself, Hone. cbn [cond_Zopp].
  assert (Hpow : 2 ^ 53 <= 2 ^ (- e) \/ (e = -52 /\ 2 ^ (- e) = 2 ^ 52)).
  { destruct He as [He | [-> _]]; [left | right; split; reflexivity].
    apply Z.pow_le_mono_r; lia. }
  destruct (2 ^ (- e) - Zpos m) as [|d|d] eqn:Hdiff; try lia.
  - reflexivity.
  - cbn [binary_normalize].
    pose proof (digits2_bounds d) as Hd.
    assert (Hdd : Zpos (digits2_pos d) <= - e) by (apply digits2_le; lia).
    assert (He1 : fexp 53 1024 (Zpos (digits2_pos d) + e) <= -53) by (rewrite fexp64; lia).
    destruct (binary_round_carry d e ltac:(lia)) as [-> | (p' & e' & -> & Hcases)].
    + reflexivity.
    + set (e1 := fexp 53 1024 (Zpos (digits2_pos d) + e)) in *.
      assert (Hp'lt : e' < -52 \/ (e' = -52 /\ Zpos p' < 2 ^ 52)).
      { destruct Hcases as [[-> _] | (-> & Hee1 & Hp' & Hcarry)]; [lia|].
        destruct (Z.eq_dec (e1 + 1) (-52)) as [Heq | Hne]; [right | lia].
        split; [exact Heq|].
        destruct (Z.eq_dec (Zpos p') (2 ^ 52)) as [Hp52 | Hpne]; [exfalso | lia].
        specialize (Hcarry Hp52).
        (* a carry needs a fraction below 2^-54 *)
        assert (He1v : e1 = -53) by lia. rewrite He1v in Hcarry.
        assert (HT : 2 ^ (- e) = 2 ^ 53 * 2 ^ (-53 - e)).
        { rewrite <- Z.pow_add_r by lia. f_equal. lia. }
        assert (HTle : 2 ^ (-53 - e) <= 2 ^ 52) by (apply Z.pow_le_mono_r; lia).
        lia. }
      apply fltb_one_finite. lia.
Qed.

Section Extras.
Context {C : Collaborators}.

Lemma split_index_pow2 j n :
  -60 <= j <= 0 -> 0 <= n < 2 ^ 53 ->
  split_index (S754_finite false 4503599627370496 (j - 52)) n = Ok (n / 2 ^ (- j)).
Proof.
  intros Hj Hn. destruct (Z.eq_dec n 0) as [-> | Hn0].
  - rewrite Z.div_0_l by (apply Z.neq_sym, Z.lt_neq, Z.pow_pos_nonneg; lia). reflexivity.
  - destruct (fmul_pow2 j n Hj ltac:(lia)) as (x & Hx & Hk).
    unfold split_index. rewrite Hx. exact Hk.
Qed.

(** X1: for every fraction [2^-53 <= f <= 1] and every batch of
    [1 <= N < 2^53] rows the split index is below [N]: at least one row is
    attacked. *)
Theorem split_below_batch_size (f : float) (inputs : list example) :
  valid f = true -> fleb min_fraction f = true -> fleb f one = true ->
  1 <= Z.of_nat (length inputs) < 2 ^ 53 ->
  exists k, split_index (fsub one f) (Z.of_nat (length inputs)) = Ok k /\
            0 <= k < Z.of_nat (length inputs) /\ suffix k inputs <> [].
Proof.
  intros Hvalid Hmin Hle HN.
  assert (Hpos : fltb zero f = true).
  { destruct f as [s | s | | s m e]; try destruct s; try discriminate; reflexivity. }
  pose proof (fsub_one_below f Hvalid Hmin Hle) as Hlt.
  destruct (split_index_lt f _ Hvalid Hpos Hle Hlt HN) as (k & Hk & Hrange).
  exists k. split; [exact Hk|]. split; [exact Hrange|].
  intros Hnil. pose proof (length_suffix k inputs ltac:(lia)) as Hlen.
  rewrite Hnil in Hlen. cbn [length] in Hlen. lia.
Qed.

(** X2: for every fraction in (0, 1] and every batch size below 2^53
    the split index exists and lies between 0 and the batch size, so the
    slices at it are never clipped. *)
Theorem split_within_batch (f : float) (n : Z) :
  valid f = true -> fltb zero f = true -> fleb f one = true -> 0 <= n < 2 ^ 53 ->
  exists k, split_index (fsub one f) n = Ok k /\ 0 <= k <= n.
Proof.
  intros Hvalid Hpos Hle Hn.
  destruct (Z.eq_dec n 0) as [-> | Hn0].
  - destruct (split_index_floor f 0 Hvalid Hpos Hle ltac:(lia)) as (x & k & Hx & Hk & Hfl & Hk0).
    exists k. split; [exact Hk|].
    rewrite float_of_int_zero in Hx. injection Hx as <-.
    destruct (fsub_one_bounded f Hvalid Hpos Hle) as [Ha | (p & e & Ha & _)];
      rewrite Ha in Hfl; cbn in Hfl; injection Hfl as <-; lia.
  - destruct (fsub_one_cases f Hvalid Hpos Hle) as [Hlt | Hone].
    + destruct (split_index_lt f n Hvalid Hpos Hle Hlt ltac:(lia)) as (k & Hk & Hrange).
      exists k. split; [exact Hk | lia].
    + exists n. rewrite Hone. split; [|lia].
      change one with (S754_finite false 4503599627370496 (0 - 52)).
      rewrite (split_index_pow2 0 n) by lia.
      change (2 ^ (- 0)) with 1. rewrite Z.div_1_r. reflexivity.
Qed.

(** X3: when the stored clean fraction [1 - f] is 1.0, as it is for
    [f = 2^-60], every batch is split at its own size: all rows are clean
    and the attack receives none. *)
Theorem degenerate_fraction_attacks_nothing (f : float) (inputs : list example) :
  fsub one f = one -> Z.of_nat (length inputs) < 2 ^ 53 ->
  split_index (fsub one f) (Z.of_nat (length inputs)) = Ok (Z.of_nat (length inputs)) /\
  prefix (Z.of_nat (length inputs)) inputs = inputs /\
  suffix (Z.of_nat (length inputs)) inputs = [].
Proof.
  intros Hone Hn. rewrite Hone. split; [|split].
  - change one with (S754_finite false 4503599627370496 (0 - 52)).
    rewrite (split_index_pow2 0) by lia.
    change (2 ^ (- 0)) with 1. rewrite Z.div_1_r. reflexivity.
  - rewrite prefix_nonneg, Nat2Z.id by lia. apply firstn_all.
  - rewrite suffix_nonneg, Nat2Z.id by lia. apply skipn_all.
Qed.

Lemma realized_fraction_nonempty split n fr :
  realized_fraction split n = Ok fr -> n <> 0.
Proof.
  unfold realized_fraction. intros H Hn. subst n.
  destruct (float_of_int split) as [s|e]; cbn [bind] in H; [|discriminate].
  rewrite float_of_int_zero in H. cbn in H. discriminate.
Qed.

(** X4: a batch without rows makes the training step raise
    [ZeroDivisionError] (the division by [float(inputs.size(0))]), for
    every fraction the constructor accepts, and so does [train] as soon as
    it meets such a batch. *)
Theorem empty_batch_raises (f : float) (nw : network) (targets : list Z) :
  valid f = true -> fltb zero f = true -> fleb f one = true ->
  forward_batch (fsub one f) nw [] targets = Raise ZeroDivisionError /\
  (forall epoch batches b st rest,
      train_loop (fsub one f) epoch batches b st (([], targets) :: rest)
      = Raise ZeroDivisionError).
Proof.
  intros Hvalid Hpos Hle.
  assert (Hf : forall nw', forward_batch (fsub one f) nw' [] targets = Raise ZeroDivisionError).
  { intros nw'. unfold forward_batch. cbn [length Z.of_nat].
    destruct (split_index_floor f 0 Hvalid Hpos Hle ltac:(lia)) as (x & k & Hx & Hk & Hfl & _).
    rewrite Hk. cbn [bind].
    rewrite float_of_int_zero in Hx. injection Hx as <-.
    assert (k = 0) as ->.
    { destruct (fsub_one_bounded f Hvalid Hpos Hle) as [Ha | (p & e & Ha & _)];
        rewrite Ha in Hfl; cbn in Hfl; injection Hfl as <-; reflexivity. }
    reflexivity. }
  split; [apply Hf|].
  intros epoch batches b st rest. cbn [train_loop]. unfold train_batch.
  rewrite Hf. reflexivity.
Qed.

(** X5: when the attack returns one perturbation per attacked row, the
    branch with a clean loss is taken exactly when the split index is
    positive, and the model is fed as many rows as the batch has. *)
Theorem mixed_iff_clean_part (fr : float) (nw : network) (inputs : list example)
    (targets : list Z) (fp : forward_pass) :
  forward_batch fr nw inputs targets = Ok fp ->
  0 <= fp_split fp ->
  length (fst (attack_run (model_eval nw) (suffix (fp_split fp) inputs)
                          (suffix (fp_split fp) targets)))
  = length (suffix (fp_split fp) inputs) ->
  fp_mixed fp = (0 <? fp_split fp) /\ length (fp_inputs fp) = length inputs.
Proof.
  intros Hfp Hs Hattack. apply forward_batch_inv in Hfp. cbv zeta in Hfp.
  destruct Hfp as (_ & Hfr & Hadv & _ & _ & Hin & _ & _ & _ & _ & Hmixed & _).
  apply realized_fraction_nonempty in Hfr.
  destruct (broadcast2_same_length add_example _ _ (eq_sym Hattack)) as (adv & Hadv' & Hlen & _).
  rewrite Hadv' in Hadv. injection Hadv as Hadv.
  pose proof (length_prefix_suffix (fp_split fp) inputs) as Hsum.
  assert (Hpre : length (prefix (fp_split fp) inputs)
                 = Z.to_nat (Z.min (fp_split fp) (Z.of_nat (length inputs)))).
  { rewrite prefix_nonneg, length_firstn by assumption. lia. }
  rewrite <- Hadv in Hmixed, Hin. rewrite Hmixed, Hin. unfold recombine.
  destruct (Nat.ltb_spec (length adv) (length inputs)) as [Hlt | Hge].
  - rewrite length_app. split; [|lia].
    destruct (Z.ltb_spec 0 (fp_split fp)); destruct (Nat.ltb_spec (length adv)
      (length (prefix (fp_split fp) inputs) + length adv)); try reflexivity; lia.
  - split; [|lia].
    destruct (Z.ltb_spec 0 (fp_split fp)); destruct (Nat.ltb_spec (length adv) (length adv));
      try reflexivity; lia.
Qed.

Lemma train_loop_last fr epoch batches earlier last :
  forall b st st',
    train_loop fr epoch batches b st (earlier ++ [last]) = Ok st' ->
    batches = b + Z.of_nat (length (earlier ++ [last])) ->
    exists nw acc fp,
      forward_batch fr nw (fst last) (snd last) = Ok fp /\
      ts_writer st' = ts_writer st ++ epoch_writes acc fp epoch.
Proof.
  induction earlier as [|bt rest IH]; intros b st st' H Hb.
  - cbn [app train_loop] in H. apply bind_ok in H as (st1 & Hbatch & Hrest).
    cbn in Hrest. injection Hrest as <-.
    apply train_batch_inv in Hbatch as (fp & acc & Hfp & _ & Hw).
    cbn [app length] in Hb.
    replace (b =? batches - 1) with true in Hw by (symmetry; apply Z.eqb_eq; lia).
    eauto.
  - cbn [app train_loop] in H. apply bind_ok in H as (st1 & Hbatch & Hrest).
    apply train_batch_inv in Hbatch as (fp & acc & _ & _ & Hw).
    cbn [app length] in Hb. rewrite length_app in Hb. cbn [length] in Hb.
    replace (b =? batches - 1) with false in Hw by (symmetry; apply Z.eqb_neq; lia).
    rewrite app_nil_r in Hw.
    apply IH in Hrest as (nw & acc' & fp' & Hfp' & Hw'); [|rewrite length_app; cbn [length]; lia].
    exists nw, acc', fp'. split; [exact Hfp'|]. rewrite Hw', Hw. reflexivity.
Qed.

(** X6: the writes of one call of [train] are those of its last batch
    alone: nine writes when that batch has a clean part (three clean
    scalars, four adversarial scalars, two image grids) and five when it
    has none, and [train/loss] is among them exactly in the first case,
    whatever the earlier batches were. *)
Theorem train_writes_for_last_batch (epoch : Z) (t t' : trainer)
    (earlier : list batch) (last : batch) :
  train epoch t = Ok t' -> trainset t = earlier ++ [last] ->
  exists nw acc fp,
    forward_batch (fraction t) nw (fst last) (snd last) = Ok fp /\
    writer t' = writer t ++ epoch_writes acc fp epoch /\
    length (epoch_writes acc fp epoch) = (if fp_mixed fp then 9 else 5)%nat /\
    (Exists (fun w => tag_of w = "train/loss") (epoch_writes acc fp epoch)
     <-> fp_mixed fp = true).
Proof.
  unfold train. intros H Hdata. apply bind_ok in H as (st & Hloop & H).
  injection H as <-. cbn [writer]. rewrite Hdata in Hloop.
  apply train_loop_last in Hloop as (nw & acc & fp & Hfp & Hw); [|lia].
  cbn [ts_writer] in Hw.
  exists nw, acc, fp. split; [exact Hfp|]. split; [exact Hw|].
  unfold epoch_writes, clean_scalars, adversarial_scalars, train_images.
  destruct (fp_mixed fp); cbn [app length]; split; try reflexivity.
  - split; [reflexivity|]. intros _. constructor. reflexivity.
  - split; [|discriminate]. intros Hex.
    repeat (apply Exists_cons in Hex as [Hex | Hex]; [discriminate|]).
    inversion Hex.
Qed.

(** X7: at the default fraction 0.5 the split index is [N / 2], rounded
    down. *)
Theorem default_fraction_halves (n : Z) :
  0 <= n < 2 ^ 53 -> split_index (fsub one half) n = Ok (n / 2).
Proof.
  intros Hn. change (fsub one half) with (S754_finite false 4503599627370496 (-1 - 52)).
  rewrite (split_index_pow2 (-1) n) by lia. reflexivity.
Qed.

(** X8: when both partitions exist and the split index is exactly half
    of the batch size, the loss that is back-propagated is the convex
    combination of the specification: the two weights coincide. *)
Theorem loss_as_specified_at_half (fr : float) (nw : network) (inputs : list example)
    (targets : list Z) (fp : forward_pass) :
  forward_batch fr nw inputs targets = Ok fp -> fp_mixed fp = true ->
  2 * fp_split fp = Z.of_nat (length inputs) ->
  specified_loss (fp_split fp) (Z.of_nat (length inputs))
    (classification_loss (fp_clean_logits fp) (fp_clean_targets fp))
    (fp_adversarial_loss fp) = Ok (fp_loss fp).
Proof.
  intros Hfp Hmixed Hhalf. apply forward_batch_inv in Hfp. cbv zeta in Hfp.
  destruct Hfp as (_ & Hfr & _ & _ & _ & _ & _ & _ & _ & _ & _ & Hloss).
  unfold specified_loss.
  replace (Z.of_nat (length inputs) - fp_split fp) with (fp_split fp) by lia.
  rewrite Hfr. cbn [bind]. rewrite Hloss, Hmixed. reflexivity.
Qed.
(** X9: on a test set without batches [test] raises [TypeError] once the
    base test has returned, at the first [numpy.mean] of an accumulator
    that is still [None]; so does [step], after a training epoch that
    went through. *)
Theorem empty_test_set_raises (epoch : Z) (t : trainer) :
  testset t = [] ->
  (forall base, NormalTraining_test epoch (net t) = Ok base ->
     test epoch t = Raise TypeError) /\
  (forall t' base, train epoch t = Ok t' ->
     NormalTraining_test epoch (net t') = Ok base ->
     step epoch t = Raise TypeError).
Proof.
  intros Hempty.
  assert (Htest : forall u base, testset u = [] ->
            NormalTraining_test epoch (net u) = Ok base -> test epoch u = Raise TypeError).
  { intros u base Hu Hbase. unfold test. rewrite Hbase, Hu. reflexivity. }
  split.
  - intros base Hbase. eapply Htest; eauto.
  - intros t' base Htrain Hbase. unfold step. rewrite Htrain. cbn [bind].
    apply train_log in Htrain as (_ & _ & _ & Hts & _).
    eapply Htest; [congruence | eauto].
Qed.

End Extras.

(** * The further properties at concrete inputs *)

Lemma split_below_batch_size_witness :
  exists k, split_index (fsub one Toy.quarter) 4 = Ok k /\ 0 <= k < 4 /\
            suffix k (fst Toy.four_rows) <> [].
Proof.
  assert (Hn : 1 <= Z.of_nat (length (fst Toy.four_rows)) < 2 ^ 53) by (cbn; lia).
  exact (split_below_batch_size Toy.quarter (fst Toy.four_rows) eq_refl eq_refl eq_refl Hn).
Defined.

Lemma split_within_batch_witness :
  exists k, split_index (fsub one Toy.tiny) 4 = Ok k /\ 0 <= k <= 4.
Proof.
  assert (Hn : 0 <= 4 < 2 ^ 53) by lia.
  exact (split_within_batch Toy.tiny 4 eq_refl eq_refl eq_refl Hn).
Defined.

Lemma degenerate_fraction_attacks_nothing_witness :
  split_index (fsub one Toy.tiny) 4 = Ok 4 /\
  prefix 4 (fst Toy.four_rows) = fst Toy.four_rows /\
  suffix 4 (fst Toy.four_rows) = [].
Proof.
  exact (degenerate_fraction_attacks_nothing Toy.tiny (fst Toy.four_rows) eq_refl eq_refl).
Defined.

Lemma empty_batch_raises_witness :
  forward_batch (fsub one Toy.quarter) 0%nat [] [] = Raise ZeroDivisionError.
Proof.
  exact (proj1 (empty_batch_raises Toy.quarter 0%nat [] eq_refl eq_refl eq_refl)).
Defined.

Lemma mixed_iff_clean_part_witness :
  fp_mixed Toy.mixed_pass = (0 <? fp_split Toy.mixed_pass) /\
  length (fp_inputs Toy.mixed_pass) = length (fst Toy.four_rows).
Proof.
  assert (Hs : 0 <= fp_split Toy.mixed_pass) by (cbn; lia).
  exact (mixed_iff_clean_part (fsub one Toy.quarter) 0%nat (fst Toy.four_rows)
           (snd Toy.four_rows) Toy.mixed_pass eq_refl Hs eq_refl).
Defined.

Lemma train_writes_for_last_batch_witness :
  exists nw acc fp,
    forward_batch (fraction (Toy.constructed Toy.quarter)) nw
      (fst Toy.four_rows) (snd Toy.four_rows) = Ok fp /\
    writer Toy.after_training =
      writer (Toy.constructed Toy.quarter) ++ epoch_writes acc fp 0 /\
    length (epoch_writes acc fp 0) = (if fp_mixed fp then 9 else 5)%nat.
Proof.
  destruct (train_writes_for_last_batch 0 (Toy.constructed Toy.quarter) Toy.after_training
              [Toy.four_rows] Toy.four_rows eq_refl eq_refl)
    as (nw & acc & fp & Hfp & Hw & Hlen & _).
  exists nw, acc, fp. split; [exact Hfp|]. split; [exact Hw | exact Hlen].
Defined.

Lemma default_fraction_halves_witness : split_index (fsub one half) 5 = Ok (5 / 2).
Proof.
  assert (Hn : 0 <= 5 < 2 ^ 53) by lia.
  exact (default_fraction_halves 5 Hn).
Defined.

Lemma loss_as_specified_at_half_witness :
  specified_loss (fp_split Toy.half_pass) 4
    (classification_loss (fp_clean_logits Toy.half_pass) (fp_clean_targets Toy.half_pass))
    (fp_adversarial_loss Toy.half_pass) = Ok (fp_loss Toy.half_pass).
Proof.
  exact (loss_as_specified_at_half half 0%nat (fst Toy.four_rows) (snd Toy.four_rows)
           Toy.half_pass eq_refl eq_refl eq_refl).
Defined.

Lemma empty_test_set_raises_witness :
  test 0 Toy.untested = Raise TypeError /\ step 0 Toy.untested = Raise TypeError.
Proof.
  destruct (empty_test_set_raises (C := Toy.collaborators) 0 Toy.untested eq_refl)
    as [Htest Hstep].
  split.
  - exact (Htest _ eq_refl).
  - refine (Hstep Toy.untested_trained _ eq_refl eq_refl).
Defined.
